(** * The symbol-index and modifier state machine of [EekKeyboard]

    A shallow embedding of [eek-keyboard.c]: the private state of the
    keyboard object ([group], [level], [modifier_behavior], [modifiers]),
    the class handlers of the [key-pressed] and [key-released] signals,
    the symbol-index setters and the keycode lookup, followed by the
    properties the specification states about them.

    The C functions mutate the object behind [self] and emit the
    [symbol-index-changed] signal; here they are computations in a small
    state-and-output monad over the keyboard object. *)

From Stdlib Require Import ZArith List Lia Bool String.
From stdpp Require Import base option numbers gmap strings list.
Import ListNotations.
Local Open Scope Z_scope.

(** ** Types declared in headers outside the translated file *)

(** Modelled from the spec: the [EekModifierBehavior] enumeration of
    [eek-types.h], "modifier_behavior: {None, Latch, Lock}". *)
Inductive EekModifierBehavior : Type :=
  | EEK_MODIFIER_BEHAVIOR_NONE
  | EEK_MODIFIER_BEHAVIOR_LATCH
  | EEK_MODIFIER_BEHAVIOR_LOCK.

#[global] Instance EekModifierBehavior_eq_dec : EqDecision EekModifierBehavior.
Proof. solve_decision. Defined.

(** The two [EekModifierType] bits read by [set_level_from_modifiers].
    Their numeric values live in [eek-types.h]; the development is
    parametric in them. *)
Class EekModifierMasks : Type := {
  EEK_SHIFT_MASK : Z;
  EEK_MOD5_MASK : Z
}.

(** The values of the X11 modifier layout, [1 << 0] and [1 << 7]. *)
Definition x11_masks : EekModifierMasks :=
  {| EEK_SHIFT_MASK := 1; EEK_MOD5_MASK := 128 |}.

(** Modelled from the spec: a Symbol is "a display label/icon ... and
    an optional modifier mask it carries (non-zero only for modifier
    keys)"; [eek_symbol_get_modifier_mask] of [eek-symbol.c] reads it. *)
Record EekSymbol : Type := {
  symbol_name : string;
  symbol_modifier_mask : Z
}.

Definition eek_symbol_get_modifier_mask (symbol : EekSymbol) : Z :=
  symbol_modifier_mask symbol.

(** Modelled from the spec: a Key has "a stable hardware/virtual
    keycode" and owns a Symbol Table, "a two-dimensional mapping
    (group, level) -> Symbol, sparse". *)
Record EekKey : Type := {
  key_keycode : Z;
  key_symbol_matrix : gmap (Z * Z) EekSymbol
}.

(** Modelled from the spec: [eek_key_get_symbol_at_index] of [eek-key.c],
    "symbol_at(group, level) -> optional Symbol. Returns the stored
    Symbol or none if the cell is unpopulated; never errors". *)
Definition eek_key_get_symbol_at_index
    (key : EekKey) (group level : Z) : option EekSymbol :=
  key_symbol_matrix key !! (group, level).

(** Modelled from the spec: a Section is "an ordered sequence of Keys
    (insertion order ...)". *)
Record EekSection : Type := {
  section_keys : list EekKey
}.

(** Modelled from the spec: [eek_section_find_key_by_keycode] of
    [eek-section.c]; within a section too "first match wins". *)
Definition eek_section_find_key_by_keycode
    (section : EekSection) (keycode : Z) : option EekKey :=
  List.find (fun k => Z.eqb (key_keycode k) keycode) (section_keys section).

(** ** The keyboard object *)

(** [struct _EekKeyboardPrivate].  The [layout] pointer plays no part in
    the state machine and is left out. *)
Record EekKeyboardPrivate : Type := {
  priv_group : Z;
  priv_level : Z;
  priv_modifier_behavior : EekModifierBehavior;
  priv_modifiers : Z
}.

(** An [EekKeyboard] is an [EekContainer]: private data plus the child
    sections, kept in the order [create_section] added them. *)
Record EekKeyboard : Type := {
  priv : EekKeyboardPrivate;
  children : list EekSection
}.

(** Signals a handler emits on the keyboard.  The class handler
    [eek_keyboard_real_symbol_index_changed] is empty, so an emission is
    recorded and has no further effect on the object. *)
Inductive Signal : Type :=
  | symbol_index_changed (group level : Z).

#[global] Instance Signal_eq_dec : EqDecision Signal.
Proof. solve_decision. Defined.

(** ** The monad of keyboard methods *)

Definition Eek (A : Type) : Type :=
  EekKeyboard -> A * EekKeyboard * list Signal.

#[global] Instance Eek_ret : MRet Eek :=
  fun A (a : A) kb => (a, kb, []).

#[global] Instance Eek_bind : MBind Eek :=
  fun A B (k : A -> Eek B) (m : Eek A) kb =>
    let '(a, kb1, out1) := m kb in
    let '(b, kb2, out2) := k a kb1 in
    (b, kb2, out1 ++ out2).

(** [EEK_KEYBOARD_GET_PRIVATE(self)] followed by a field read. *)
Definition get_priv {A : Type} (field : EekKeyboardPrivate -> A) : Eek A :=
  fun kb => (field (priv kb), kb, []).

Definition get_children : Eek (list EekSection) :=
  fun kb => (children kb, kb, []).

Definition put_priv (p : EekKeyboardPrivate) : Eek unit :=
  fun kb => (tt, {| priv := p; children := children kb |}, []).

Definition g_signal_emit (s : Signal) : Eek unit :=
  fun kb => (tt, kb, [s]).

(** Field assignments [priv->f = v]. *)
Definition set_index (group level : Z) : Eek unit :=
  p ← get_priv id;
  put_priv {| priv_group := group; priv_level := level;
              priv_modifier_behavior := priv_modifier_behavior p;
              priv_modifiers := priv_modifiers p |}.

Definition set_modifiers (m : Z) : Eek unit :=
  p ← get_priv id;
  put_priv {| priv_group := priv_group p; priv_level := priv_level p;
              priv_modifier_behavior := priv_modifier_behavior p;
              priv_modifiers := m |}.

Definition set_behavior (b : EekModifierBehavior) : Eek unit :=
  p ← get_priv id;
  put_priv {| priv_group := priv_group p; priv_level := priv_level p;
              priv_modifier_behavior := b;
              priv_modifiers := priv_modifiers p |}.

(** Observations of a run. *)
Definition result {A : Type} (r : A * EekKeyboard * list Signal) : A := r.1.1.
Definition after {A : Type} (r : A * EekKeyboard * list Signal) : EekKeyboard := r.1.2.
Definition emitted {A : Type} (r : A * EekKeyboard * list Signal) : list Signal := r.2.

(** ** Machine integers *)

(** [~x] on a 32-bit [guint]. *)
Definition guint_not (x : Z) : Z := Z.lnot x mod 2 ^ 32.

(** ** Symbol index *)

Definition eek_keyboard_real_set_symbol_index (group level : Z) : Eek unit :=
  g ← get_priv priv_group;
  l ← get_priv priv_level;
  if decide (g ≠ group ∨ l ≠ level) then
    set_index group level;;
    g_signal_emit (symbol_index_changed group level)
  else mret tt.

(** The out-parameters [gint *group], [gint *level] may each be [NULL];
    the flags say which pointers are given.  [g_return_if_fail] leaves
    both untouched when neither is. *)
Definition eek_keyboard_real_get_symbol_index
    (want_group want_level : bool) : Eek (option Z * option Z) :=
  if want_group || want_level then
    g ← get_priv priv_group;
    l ← get_priv priv_level;
    mret (if want_group then Some g else None,
          if want_level then Some l else None)
  else mret (None, None).

Definition eek_keyboard_set_symbol_index (group level : Z) : Eek unit :=
  eek_keyboard_real_set_symbol_index group level.

Definition eek_keyboard_get_symbol_index
    (want_group want_level : bool) : Eek (option Z * option Z) :=
  eek_keyboard_real_get_symbol_index want_group want_level.

(** The local the getters return is written whenever its address is
    passed, which it always is; [0] stands for the indeterminate value
    of the branch that cannot be taken. *)
Definition eek_keyboard_get_group : Eek Z :=
  r ← eek_keyboard_get_symbol_index true false;
  mret (default 0 r.1).

Definition eek_keyboard_get_level : Eek Z :=
  r ← eek_keyboard_get_symbol_index false true;
  mret (default 0 r.2).

Definition eek_keyboard_set_group (group : Z) : Eek unit :=
  level ← eek_keyboard_get_level;
  eek_keyboard_set_symbol_index group level.

Definition eek_keyboard_set_level (level : Z) : Eek unit :=
  group ← eek_keyboard_get_group;
  eek_keyboard_set_symbol_index group level.

Definition eek_keyboard_set_modifier_behavior
    (modifier_behavior : EekModifierBehavior) : Eek unit :=
  set_behavior modifier_behavior.

Definition eek_keyboard_get_modifier_behavior : Eek EekModifierBehavior :=
  get_priv priv_modifier_behavior.

Definition eek_keyboard_get_modifiers : Eek Z :=
  get_priv priv_modifiers.

(** [eek_keyboard_init]: the private data of a fresh keyboard. *)
Definition eek_keyboard_init : EekKeyboardPrivate :=
  {| priv_group := 0; priv_level := 0;
     priv_modifier_behavior := EEK_MODIFIER_BEHAVIOR_NONE;
     priv_modifiers := 0 |}.

(** ** Modifier handling: the [key-pressed] and [key-released] handlers *)

Section Handlers.
Context `{!EekModifierMasks}.

Definition set_level_from_modifiers : Eek unit :=
  m ← get_priv priv_modifiers;
  let level := 0 in
  let level := if decide (Z.land m EEK_MOD5_MASK ≠ 0) then Z.lor level 2 else level in
  let level := if decide (Z.land m EEK_SHIFT_MASK ≠ 0) then Z.lor level 1 else level in
  eek_keyboard_set_level level.

Definition eek_keyboard_real_key_pressed (key : EekKey) : Eek unit :=
  b ← get_priv priv_modifier_behavior;
  (if decide (b = EEK_MODIFIER_BEHAVIOR_LATCH) then set_modifiers 0 else mret tt);;
  g ← get_priv priv_group;
  l ← get_priv priv_level;
  match eek_key_get_symbol_at_index key g l with
  | None => mret tt
  | Some symbol =>
      let modifier := eek_symbol_get_modifier_mask symbol in
      (if decide (modifier ≠ 0) then
         b ← get_priv priv_modifier_behavior;
         m ← get_priv priv_modifiers;
         if decide (b = EEK_MODIFIER_BEHAVIOR_NONE ∨ b = EEK_MODIFIER_BEHAVIOR_LATCH)
         then set_modifiers (Z.lor m modifier)
         else if decide (b = EEK_MODIFIER_BEHAVIOR_LOCK)
         then set_modifiers (Z.lxor m modifier)
         else mret tt
       else mret tt);;
      set_level_from_modifiers
  end.

Definition eek_keyboard_real_key_released (key : EekKey) : Eek unit :=
  g ← get_priv priv_group;
  l ← get_priv priv_level;
  match eek_key_get_symbol_at_index key g l with
  | None => mret tt
  | Some symbol =>
      let modifier := eek_symbol_get_modifier_mask symbol in
      (if decide (modifier ≠ 0) then
         b ← get_priv priv_modifier_behavior;
         m ← get_priv priv_modifiers;
         if decide (b = EEK_MODIFIER_BEHAVIOR_NONE)
         then set_modifiers (Z.land m (guint_not modifier))
         else mret tt
       else mret tt);;
      set_level_from_modifiers
  end.

(** The events the two class handlers consume. *)
Inductive Event : Type :=
  | KeyPressed (key : EekKey)
  | KeyReleased (key : EekKey).

Definition handle (e : Event) : Eek unit :=
  match e with
  | KeyPressed key => eek_keyboard_real_key_pressed key
  | KeyReleased key => eek_keyboard_real_key_released key
  end.

(** Events are delivered one at a time, each run to completion. *)
Fixpoint run (es : list Event) : Eek unit :=
  match es with
  | [] => mret tt
  | e :: es' => handle e;; run es'
  end.

(** One event takes the keyboard from [kb] to [kb'], emitting [out]. *)
Inductive step (kb : EekKeyboard) (e : Event) :
    list Signal -> EekKeyboard -> Prop :=
  | step_handle : step kb e (emitted (handle e kb)) (after (handle e kb)).

(** The keyboards the handlers can produce from [kb0]. *)
Inductive reachable (kb0 : EekKeyboard) : EekKeyboard -> Prop :=
  | reachable_start : reachable kb0 kb0
  | reachable_step kb e out kb' :
      reachable kb0 kb -> step kb e out kb' -> reachable kb0 kb'.

(** The level the specification derives from a modifier mask:
    "level = 2·(MOD5 bit set) + 1·(SHIFT bit set)". *)
Definition level_of_mask (m : Z) : Z :=
  2 * Z.b2z (bool_decide (Z.land m EEK_MOD5_MASK ≠ 0))
  + 1 * Z.b2z (bool_decide (Z.land m EEK_SHIFT_MASK ≠ 0)).

(** The symbol a key resolves to on keyboard [kb]. *)
Definition resolved (key : EekKey) (kb : EekKeyboard) : option EekSymbol :=
  eek_key_get_symbol_at_index key
    (priv_group (priv kb)) (priv_level (priv kb)).

End Handlers.

(** A keyboard straight out of [eek_keyboard_init], with the
    [modifier-behavior] property then set to [b]. *)
Definition fresh_keyboard (b : EekModifierBehavior) (cs : list EekSection) : EekKeyboard :=
  after (eek_keyboard_set_modifier_behavior b
           {| priv := eek_keyboard_init; children := cs |}).

(** ** Keycode lookup *)

(** [struct _FindKeyByKeycodeCallbackData]. *)
Record FindKeyByKeycodeCallbackData : Type := {
  data_key : option EekKey;
  data_keycode : Z
}.

Definition find_key_by_keycode_section_callback
    (element : EekSection) (user_data : FindKeyByKeycodeCallbackData)
    : Z * FindKeyByKeycodeCallbackData :=
  let data :=
    {| data_key := eek_section_find_key_by_keycode element (data_keycode user_data);
       data_keycode := data_keycode user_data |} in
  match data_key data with
  | Some _ => (0, data)
  | None => (-1, data)
  end.

(** Modelled from the spec: [eek_container_find] of [eek-container.c].
    The children are visited "in the View's insertion order" and the
    first one on which the callback answers [0] is returned; the
    callback may write through [user_data]. *)
Fixpoint eek_container_find_children {D : Type}
    (cs : list EekSection) (func : EekSection -> D -> Z * D) (user_data : D)
    : option EekSection * D :=
  match cs with
  | [] => (None, user_data)
  | element :: rest =>
      let '(r, user_data') := func element user_data in
      if decide (r = 0) then (Some element, user_data')
      else eek_container_find_children rest func user_data'
  end.

Definition eek_container_find {D : Type}
    (func : EekSection -> D -> Z * D) (user_data : D)
    : Eek (option EekSection * D) :=
  cs ← get_children;
  mret (eek_container_find_children cs func user_data).

Definition eek_keyboard_real_find_key_by_keycode (keycode : Z) : Eek (option EekKey) :=
  let data := {| data_key := None; data_keycode := keycode |} in
  r ← eek_container_find find_key_by_keycode_section_callback data;
  match r.1 with
  | Some _ => mret (data_key r.2)
  | None => mret None
  end.

Definition eek_keyboard_find_key_by_keycode (keycode : Z) : Eek (option EekKey) :=
  eek_keyboard_real_find_key_by_keycode keycode.

(** All keys of the keyboard, section after section. *)
Definition all_keys (kb : EekKeyboard) : list EekKey :=
  concat (map section_keys (children kb)).

(** ** Further vocabulary about keys and events *)

Definition event_key (e : Event) : EekKey :=
  match e with
  | KeyPressed key => key
  | KeyReleased key => key
  end.

(** Every modifier mask in the key's symbol matrix fits the 32-bit
    [EekModifierType]. *)
Definition masks_in_range (key : EekKey) : Prop :=
  forall g l symbol,
    eek_key_get_symbol_at_index key g l = Some symbol ->
    0 <= eek_symbol_get_modifier_mask symbol < 2 ^ 32.

(** ** The application's handlers ([eekboard.c]) *)

(** Keysyms and modifier masks of the X11 headers that [on_key_pressed]
    compares with and toggles; the development is parametric in their
    values. *)
Class X11Constants : Type := {
  XK_Shift_L : Z;
  XK_Shift_R : Z;
  XK_Control_L : Z;
  XK_Control_R : Z;
  XK_Alt_L : Z;
  XK_Alt_R : Z;
  ShiftMask : Z;
  ControlMask : Z;
  Mod1Mask : Z
}.

(** The values of [X11/keysymdef.h] and [X11/X.h]. *)
Definition x11_constants : X11Constants :=
  {| XK_Shift_L := 0xffe1; XK_Shift_R := 0xffe2;
     XK_Control_L := 0xffe3; XK_Control_R := 0xffe4;
     XK_Alt_L := 0xffe9; XK_Alt_R := 0xffea;
     ShiftMask := 1; ControlMask := 4; Mod1Mask := 8 |}.

(** What the application's handlers call on their collaborators: the
    keyboard's keysym-index setter and the fake-key injector. *)
Inductive EekboardCall : Type :=
  | eek_keyboard_set_keysym_index (group level : Z)
  | fakekey_press_keysym (keysym modifiers : Z)
  | fakekey_release.

Section Application.
Context `{!X11Constants}.

(** [on_key_pressed].  [keysym] is what [eek_key_get_keysym (key)]
    returns and [index] the pair [eek_keyboard_get_keysym_index] stores
    through its out-parameters; the function maps [eekboard->modifiers]
    to its new value and lists the calls made. *)
Definition on_key_pressed (keysym : Z) (index : Z * Z) (modifiers : Z)
    : Z * list EekboardCall :=
  if decide (keysym = XK_Shift_L ∨ keysym = XK_Shift_R) then
    let modifiers := Z.lxor modifiers ShiftMask in
    let '(group, level) := index in
    (modifiers,
     [eek_keyboard_set_keysym_index group
        (if decide (Z.land modifiers ShiftMask ≠ 0) then 1 else 0)])
  else if decide (keysym = XK_Control_L ∨ keysym = XK_Control_R) then
    (Z.lxor modifiers ControlMask, [])
  else if decide (keysym = XK_Alt_L ∨ keysym = XK_Alt_R) then
    (Z.lxor modifiers Mod1Mask, [])
  else
    (modifiers, [fakekey_press_keysym keysym modifiers]).

Definition on_key_released (modifiers : Z) : Z * list EekboardCall :=
  (modifiers, [fakekey_release]).

(** The [key-pressed] signal delivered for one key after the other. *)
Fixpoint on_keys_pressed (presses : list (Z * (Z * Z))) (modifiers : Z)
    : Z * list EekboardCall :=
  match presses with
  | [] => (modifiers, [])
  | (keysym, index) :: rest =>
      let '(modifiers1, calls1) := on_key_pressed keysym index modifiers in
      let '(modifiers2, calls2) := on_keys_pressed rest modifiers1 in
      (modifiers2, calls1 ++ calls2)
  end.

(** The keysyms [on_key_pressed] treats as modifier keys. *)
Definition is_modifier_keysym (keysym : Z) : bool :=
  bool_decide (keysym = XK_Shift_L ∨ keysym = XK_Shift_R
               ∨ keysym = XK_Control_L ∨ keysym = XK_Control_R
               ∨ keysym = XK_Alt_L ∨ keysym = XK_Alt_R).

Definition is_shift_keysym (keysym : Z) : bool :=
  bool_decide (keysym = XK_Shift_L ∨ keysym = XK_Shift_R).

(** The keysyms handed to [fakekey_press_keysym], in call order. *)
Definition faked_keysyms (calls : list EekboardCall) : list Z :=
  omap (fun c => match c with
                 | fakekey_press_keysym keysym _ => Some keysym
                 | _ => None
                 end) calls.

End Application.

(** ** The release-message script ([tools]) *)

(** The script reads [NEWS.md] with [readlines] and prints the name and
    the notes of the latest release.  A Python [str] is a sequence of
    code points; the lines read are the input, the lines printed and
    the exception raised, if any, the output. *)

(** The code points of an ASCII literal. *)
Definition codes (s : string) : list Z :=
  map (fun a => Z.of_N (Ascii.N_of_ascii a)) (String.list_ascii_of_string s).

(** [str.isspace] on one code point: the characters [str.strip ()]
    removes. *)
Definition isspace (c : Z) : bool :=
  ((9 <=? c) && (c <=? 13)) || ((28 <=? c) && (c <=? 32))
  || (c =? 0x85) || (c =? 0xa0) || (c =? 0x1680)
  || ((0x2000 <=? c) && (c <=? 0x200a))
  || (c =? 0x2028) || (c =? 0x2029) || (c =? 0x202f)
  || (c =? 0x205f) || (c =? 0x3000).

Fixpoint startswith (s prefix : list Z) {struct prefix} : bool :=
  match prefix, s with
  | [], _ => true
  | p :: prefix', c :: s' => (c =? p) && startswith s' prefix'
  | _ :: _, [] => false
  end.

(** [itertools.dropwhile]. *)
Fixpoint dropwhile {A : Type} (f : A -> bool) (l : list A) : list A :=
  match l with
  | [] => []
  | x :: l' => if f x then dropwhile f l' else l
  end.

Definition lstrip (s : list Z) : list Z := dropwhile isspace s.
Definition rstrip (s : list Z) : list Z := rev (dropwhile isspace (rev s)).

(** [s.strip ()]. *)
Definition strip (s : list Z) : list Z := rstrip (lstrip s).

Inductive PyError : Type :=
  | IndexError
  | ValueError (message : string).

(** The [with] block: the release name and the lines that follow the
    header, or the exception raised. *)
Definition read_header (contents : list (list Z))
    : PyError + (list Z * list (list Z)) :=
  match contents !! 0%nat with
  | None => inl IndexError
  | Some line0 =>
      if startswith line0 (codes "## ") then
        inr (strip (drop 3 line0), drop 1 contents)
      else
        match contents !! 1%nat with
        | None => inl IndexError
        | Some line1 =>
            if startswith line1 (codes "---") then
              inr (strip line0, drop 2 contents)
            else inl (ValueError "Can't find release name")
        end
  end.

(** The [for] loop over [zip (contents, contents[1:] + [''])]: the
    lines printed, and the exception that ended the loop, if one
    did. *)
Fixpoint print_section (pairs : list (list Z * list Z))
    : list (list Z) * option PyError :=
  match pairs with
  | [] => ([], None)
  | (line, nextline) :: rest =>
      if startswith nextline (codes "---") || startswith line (codes "## ")
      then ([], None)
      else if startswith nextline (codes "===") || startswith line (codes "# ")
      then ([], Some (ValueError "Encountered title instead of release section"))
      else
        let '(printed, raised) := print_section rest in
        (strip line :: printed, raised)
  end.

(** The whole script on the lines of [NEWS.md]. *)
Definition release_message (contents : list (list Z))
    : list (list Z) * option PyError :=
  match read_header contents with
  | inl raised => ([], Some raised)
  | inr (name, contents) =>
      let contents := dropwhile (fun x => bool_decide (strip x = [])) contents in
      let '(printed, raised) :=
        print_section (combine contents (drop 1 contents ++ [[]])) in
      ((codes "Release" ++ codes " " ++ name) :: [] :: printed, raised)
  end.

(** ** Concrete keyboards used in the examples *)

Definition shift_symbol : EekSymbol :=
  {| symbol_name := "Shift_L"; symbol_modifier_mask := 1 |}.

Definition mod5_symbol : EekSymbol :=
  {| symbol_name := "ISO_Level3_Shift"; symbol_modifier_mask := 128 |}.

Definition letter_a : EekSymbol :=
  {| symbol_name := "a"; symbol_modifier_mask := 0 |}.

Definition letter_A : EekSymbol :=
  {| symbol_name := "A"; symbol_modifier_mask := 0 |}.

(** A Shift key whose matrix has the single cell (0, 0). *)
Definition shift_key_sparse : EekKey :=
  {| key_keycode := 50; key_symbol_matrix := {[ (0, 0) := shift_symbol ]} |}.

(** A Shift key that carries its symbol on every level. *)
Definition shift_key : EekKey :=
  {| key_keycode := 50;
     key_symbol_matrix :=
       <[ (0, 0) := shift_symbol ]> (<[ (0, 1) := shift_symbol ]>
       (<[ (0, 2) := shift_symbol ]> {[ (0, 3) := shift_symbol ]})) |}.

Definition mod5_key : EekKey :=
  {| key_keycode := 92;
     key_symbol_matrix :=
       <[ (0, 0) := mod5_symbol ]> (<[ (0, 1) := mod5_symbol ]>
       (<[ (0, 2) := mod5_symbol ]> {[ (0, 3) := mod5_symbol ]})) |}.

Definition a_key : EekKey :=
  {| key_keycode := 38;
     key_symbol_matrix := <[ (0, 0) := letter_a ]> {[ (0, 1) := letter_A ]} |}.

(** A key with an empty symbol matrix. *)
Definition blank_key : EekKey :=
  {| key_keycode := 9; key_symbol_matrix := ∅ |}.

Definition demo_sections : list EekSection :=
  [ {| section_keys := [blank_key; a_key] |};
    {| section_keys := [shift_key; shift_key_sparse; mod5_key] |} ].

Definition demo_keyboard (b : EekModifierBehavior) : EekKeyboard :=
  fresh_keyboard b demo_sections.

(** A freshly initialised keyboard on which every keycode occurs
    once. *)
Definition plain_keyboard : EekKeyboard :=
  {| priv := eek_keyboard_init;
     children := [ {| section_keys := [blank_key; a_key] |};
                   {| section_keys := [shift_key; mod5_key] |} ] |}.

(** A keyboard in an arbitrary private state. *)
Definition keyboard_at (g l : Z) (b : EekModifierBehavior) (m : Z) : EekKeyboard :=
  {| priv := {| priv_group := g; priv_level := l;
                priv_modifier_behavior := b; priv_modifiers := m |};
     children := demo_sections |}.

(** The keyboard [kb] with its symbol index, respectively its modifier
    mask, overwritten. *)
Definition with_index (kb : EekKeyboard) (g l : Z) : EekKeyboard :=
  after (set_index g l kb).

Definition with_modifiers (kb : EekKeyboard) (m : Z) : EekKeyboard :=
  after (set_modifiers m kb).

(** The cell of the symbol matrices the keyboard currently selects. *)
Definition symbol_index (kb : EekKeyboard) : Z * Z :=
  (priv_group (priv kb), priv_level (priv kb)).

(** [n] press-release pairs of one key. *)
Fixpoint press_release (key : EekKey) (n : nat) : list Event :=
  match n with
  | O => []
  | S n' => KeyPressed key :: KeyReleased key :: press_release key n'
  end.

(** ** Properties *)

(** Unfold the monad and the field accessors down to tuples. *)
Ltac eek_unfold :=
  unfold eek_keyboard_set_group, eek_keyboard_set_level,
    eek_keyboard_get_group, eek_keyboard_get_level,
    eek_keyboard_set_symbol_index, eek_keyboard_get_symbol_index,
    eek_keyboard_real_set_symbol_index, eek_keyboard_real_get_symbol_index,
    eek_keyboard_set_modifier_behavior,
    set_index, set_modifiers, set_behavior, put_priv, get_priv, get_children,
    g_signal_emit, result, after, emitted,
    mbind, mret, Eek_bind, Eek_ret in *;
  cbn [fst snd orb priv children priv_group priv_level
       priv_modifier_behavior priv_modifiers default id app] in *.

(** Case analysis along a handler body: guards first, then the symbol
    lookup, then the trailing call [F]. *)
Ltac eek_cases F key g l :=
  repeat (cbn; case_decide; try congruence; try (exfalso; intuition congruence));
  cbn; try reflexivity;
  try (destruct (eek_key_get_symbol_at_index key g l) as [?symbol|];
       repeat (cbn; case_decide; try congruence;
               try (exfalso; intuition congruence));
       cbn; try reflexivity;
       try (match goal with
            | |- context [F ?k] => destruct (F k) as [[[] ?] ?]
            end; reflexivity)).

Section Properties.
Context `{!EekModifierMasks}.

(** *** The symbol-index setters *)

Lemma set_symbol_index_same kb g l :
  priv_group (priv kb) = g -> priv_level (priv kb) = l ->
  eek_keyboard_real_set_symbol_index g l kb = (tt, kb, []).
Proof.
  intros Hg Hl. eek_unfold. case_decide; [tauto | reflexivity].
Qed.

Lemma set_symbol_index_run kb g l :
  eek_keyboard_real_set_symbol_index g l kb =
  if decide (priv_group (priv kb) = g ∧ priv_level (priv kb) = l)
  then (tt, kb, [])
  else (tt, with_index kb g l, [symbol_index_changed g l]).
Proof.
  unfold with_index. eek_unfold.
  repeat case_decide; try reflexivity; exfalso; tauto.
Qed.

Lemma set_group_run kb g :
  eek_keyboard_set_group g kb =
  eek_keyboard_real_set_symbol_index g (priv_level (priv kb)) kb.
Proof.
  eek_unfold. destruct (decide _) as [?|?]; reflexivity.
Qed.

Lemma set_level_run kb l :
  eek_keyboard_set_level l kb =
  eek_keyboard_real_set_symbol_index (priv_group (priv kb)) l kb.
Proof.
  eek_unfold. destruct (decide _) as [?|?]; reflexivity.
Qed.

(** C10. Setting the group alone stores the new group and keeps the
    level; setting the level alone stores the new level and keeps the
    group.  Neither touches the modifier mask, the modifier behavior or
    the sections. *)
Theorem set_group_set_level_frame (kb : EekKeyboard) (g l : Z) :
  (let kb' := after (eek_keyboard_set_group g kb) in
   priv_group (priv kb') = g
   ∧ priv_level (priv kb') = priv_level (priv kb)
   ∧ priv_modifiers (priv kb') = priv_modifiers (priv kb)
   ∧ priv_modifier_behavior (priv kb') = priv_modifier_behavior (priv kb)
   ∧ children kb' = children kb)
  ∧
  (let kb' := after (eek_keyboard_set_level l kb) in
   priv_level (priv kb') = l
   ∧ priv_group (priv kb') = priv_group (priv kb)
   ∧ priv_modifiers (priv kb') = priv_modifiers (priv kb)
   ∧ priv_modifier_behavior (priv kb') = priv_modifier_behavior (priv kb)
   ∧ children kb' = children kb).
Proof.
  split; cbv zeta.
  - rewrite set_group_run, set_symbol_index_run.
    case_decide as Hsame.
    + destruct Hsame as [Hg _]. cbn. auto.
    + cbn. auto.
  - rewrite set_level_run, set_symbol_index_run.
    case_decide as Hsame.
    + destruct Hsame as [_ Hl]. cbn. auto.
    + cbn. auto.
Qed.

(** *** The handlers as state transformers *)

Lemma level_bits (m : Z) :
  (let level := 0 in
   let level := if decide (Z.land m EEK_MOD5_MASK ≠ 0) then Z.lor level 2 else level in
   let level := if decide (Z.land m EEK_SHIFT_MASK ≠ 0) then Z.lor level 1 else level in
   level) = level_of_mask m.
Proof.
  unfold level_of_mask. cbv zeta.
  destruct (decide (Z.land m EEK_MOD5_MASK ≠ 0)) as [H5|H5];
    destruct (decide (Z.land m EEK_SHIFT_MASK ≠ 0)) as [Hs|Hs];
    rewrite ?(bool_decide_eq_true_2 _ H5), ?(bool_decide_eq_false_2 _ H5),
            ?(bool_decide_eq_true_2 _ Hs), ?(bool_decide_eq_false_2 _ Hs);
    reflexivity.
Qed.

Lemma set_level_from_modifiers_run kb :
  set_level_from_modifiers kb =
  eek_keyboard_real_set_symbol_index
    (priv_group (priv kb)) (level_of_mask (priv_modifiers (priv kb))) kb.
Proof.
  rewrite <- level_bits, <- set_level_run.
  unfold set_level_from_modifiers, mbind, Eek_bind, get_priv. cbv zeta.
  destruct (eek_keyboard_set_level _ kb) as [[[] kb'] out]. reflexivity.
Qed.

Lemma key_pressed_run key kb :
  eek_keyboard_real_key_pressed key kb =
  let b := priv_modifier_behavior (priv kb) in
  let kb1 := if decide (b = EEK_MODIFIER_BEHAVIOR_LATCH)
             then with_modifiers kb 0 else kb in
  match resolved key kb with
  | None => (tt, kb1, [])
  | Some symbol =>
      let modifier := eek_symbol_get_modifier_mask symbol in
      let m1 := priv_modifiers (priv kb1) in
      let kb2 :=
        if decide (modifier ≠ 0) then
          with_modifiers kb1
            (match b with
             | EEK_MODIFIER_BEHAVIOR_LOCK => Z.lxor m1 modifier
             | _ => Z.lor m1 modifier
             end)
        else kb1 in
      set_level_from_modifiers kb2
  end.
Proof.
  destruct kb as [[g l b m] cs].
  unfold eek_keyboard_real_key_pressed, resolved, with_modifiers.
  set (F := set_level_from_modifiers). clearbody F.
  eek_unfold.
  destruct b; eek_cases F key g l.
Qed.

Lemma key_released_run key kb :
  eek_keyboard_real_key_released key kb =
  let b := priv_modifier_behavior (priv kb) in
  match resolved key kb with
  | None => (tt, kb, [])
  | Some symbol =>
      let modifier := eek_symbol_get_modifier_mask symbol in
      let m := priv_modifiers (priv kb) in
      let kb1 :=
        if decide (modifier ≠ 0 ∧ b = EEK_MODIFIER_BEHAVIOR_NONE)
        then with_modifiers kb (Z.land m (guint_not modifier))
        else kb in
      set_level_from_modifiers kb1
  end.
Proof.
  destruct kb as [[g l b m] cs].
  unfold eek_keyboard_real_key_released, resolved, with_modifiers.
  set (F := set_level_from_modifiers). clearbody F.
  eek_unfold.
  destruct b; eek_cases F key g l.
Qed.

Lemma with_index_same kb :
  with_index kb (priv_group (priv kb)) (priv_level (priv kb)) = kb.
Proof. destruct kb as [[g l b m] cs]. reflexivity. Qed.

Lemma with_modifiers_same kb :
  with_modifiers kb (priv_modifiers (priv kb)) = kb.
Proof. destruct kb as [[g l b m] cs]. reflexivity. Qed.

Lemma set_level_from_modifiers_after kb :
  after (set_level_from_modifiers kb) =
  with_index kb (priv_group (priv kb)) (level_of_mask (priv_modifiers (priv kb))).
Proof.
  rewrite set_level_from_modifiers_run, set_symbol_index_run.
  case_decide as Hsame; [|reflexivity].
  destruct Hsame as [_ <-]. now rewrite with_index_same.
Qed.

Lemma set_level_from_modifiers_emitted kb :
  emitted (set_level_from_modifiers kb) =
  if decide (priv_level (priv kb) = level_of_mask (priv_modifiers (priv kb)))
  then []
  else [symbol_index_changed (priv_group (priv kb))
          (level_of_mask (priv_modifiers (priv kb)))].
Proof.
  rewrite set_level_from_modifiers_run, set_symbol_index_run.
  repeat case_decide; try reflexivity; exfalso; tauto.
Qed.

(** What a press or a release that resolves a symbol does to the
    private data. *)
Lemma key_pressed_priv key kb symbol :
  resolved key kb = Some symbol ->
  let b := priv_modifier_behavior (priv kb) in
  let modifier := eek_symbol_get_modifier_mask symbol in
  let m1 := if decide (b = EEK_MODIFIER_BEHAVIOR_LATCH)
            then 0 else priv_modifiers (priv kb) in
  let m2 := if decide (modifier ≠ 0)
            then match b with
                 | EEK_MODIFIER_BEHAVIOR_LOCK => Z.lxor m1 modifier
                 | _ => Z.lor m1 modifier
                 end
            else m1 in
  after (eek_keyboard_real_key_pressed key kb) =
  {| priv := {| priv_group := priv_group (priv kb);
                priv_level := level_of_mask m2;
                priv_modifier_behavior := b;
                priv_modifiers := m2 |};
     children := children kb |}.
Proof.
  intros Hsym. cbv zeta. rewrite key_pressed_run. cbv zeta. rewrite Hsym.
  rewrite set_level_from_modifiers_after.
  destruct kb as [[g l b m] cs]; cbn [priv priv_modifier_behavior].
  repeat case_decide; reflexivity.
Qed.

Lemma key_released_priv key kb symbol :
  resolved key kb = Some symbol ->
  let b := priv_modifier_behavior (priv kb) in
  let modifier := eek_symbol_get_modifier_mask symbol in
  let m := priv_modifiers (priv kb) in
  let m1 := if decide (modifier ≠ 0 ∧ b = EEK_MODIFIER_BEHAVIOR_NONE)
            then Z.land m (guint_not modifier) else m in
  after (eek_keyboard_real_key_released key kb) =
  {| priv := {| priv_group := priv_group (priv kb);
                priv_level := level_of_mask m1;
                priv_modifier_behavior := b;
                priv_modifiers := m1 |};
     children := children kb |}.
Proof.
  intros Hsym. cbv zeta. rewrite key_released_run. cbv zeta. rewrite Hsym.
  rewrite set_level_from_modifiers_after.
  destruct kb as [[g l b m] cs]; cbn [priv priv_modifier_behavior].
  repeat case_decide; reflexivity.
Qed.

Lemma key_pressed_none key kb :
  resolved key kb = None ->
  eek_keyboard_real_key_pressed key kb =
  (tt,
   if decide (priv_modifier_behavior (priv kb) = EEK_MODIFIER_BEHAVIOR_LATCH)
   then with_modifiers kb 0 else kb,
   []).
Proof. intros Hnone. rewrite key_pressed_run. cbv zeta. now rewrite Hnone. Qed.

Lemma key_released_none key kb :
  resolved key kb = None ->
  eek_keyboard_real_key_released key kb = (tt, kb, []).
Proof. intros Hnone. rewrite key_released_run. cbv zeta. now rewrite Hnone. Qed.

(** Bits of [x & ~m] on a 32-bit word. *)
Lemma land_guint_not_bits (x m i : Z) :
  0 <= i < 32 ->
  Z.testbit (Z.land x (guint_not m)) i = Z.testbit x i && negb (Z.testbit m i).
Proof.
  intros Hi. unfold guint_not.
  rewrite Z.land_spec, Z.mod_pow2_bits_low, Z.lnot_spec by lia.
  reflexivity.
Qed.

Lemma land_guint_not_clears (x m : Z) :
  Z.land (Z.land x (guint_not m)) m = 0.
Proof.
  apply Z.bits_inj'. intros i Hi.
  rewrite Z.bits_0, Z.land_spec.
  destruct (Z_lt_dec i 32) as [Hlt|Hge].
  - rewrite land_guint_not_bits by lia.
    destruct (Z.testbit x i), (Z.testbit m i); reflexivity.
  - unfold guint_not.
    rewrite Z.land_spec, Z.mod_pow2_bits_high by lia.
    now rewrite andb_false_r.
Qed.

Lemma level_of_mask_0 : level_of_mask 0 = 0.
Proof.
  unfold level_of_mask. rewrite !Z.land_0_l.
  rewrite bool_decide_eq_false_2 by (intros Hne; now apply Hne).
  reflexivity.
Qed.

(** *** Pressing a key that has no symbol *)

(** C1, as the code has it. A press of a key with no symbol at the
    current (group, level) emits nothing and keeps the group, the
    modifier behavior and the sections.  Under None and Lock the whole
    keyboard state is unchanged.  Under Latch the modifier mask is
    empty afterwards (the reset precedes the lookup), and the state is
    unchanged when the mask was empty already. *)
Theorem press_without_symbol (key : EekKey) (kb : EekKeyboard) :
  resolved key kb = None ->
  let r := eek_keyboard_real_key_pressed key kb in
  emitted r = []
  ∧ priv_group (priv (after r)) = priv_group (priv kb)
  ∧ priv_modifier_behavior (priv (after r)) = priv_modifier_behavior (priv kb)
  ∧ children (after r) = children kb
  ∧ (priv_modifier_behavior (priv kb) ≠ EEK_MODIFIER_BEHAVIOR_LATCH ->
     after r = kb)
  ∧ (priv_modifier_behavior (priv kb) = EEK_MODIFIER_BEHAVIOR_LATCH ->
     priv_modifiers (priv (after r)) = 0
     ∧ (priv_modifiers (priv kb) = 0 -> after r = kb)).
Proof.
  intros Hnone. cbv zeta. rewrite (key_pressed_none _ _ Hnone).
  unfold emitted, after; cbn [fst snd].
  case_decide as Hb.
  - repeat split; try reflexivity; try congruence.
    intros <-. apply with_modifiers_same.
  - repeat split; try reflexivity; congruence.
Qed.

(** An event whose key resolves a symbol leaves the level that the mask
    determines. *)
Lemma level_follows_mask_when_resolved key kb symbol :
  resolved key kb = Some symbol ->
  (let kb' := after (eek_keyboard_real_key_pressed key kb) in
   priv_level (priv kb') = level_of_mask (priv_modifiers (priv kb')))
  ∧ (let kb' := after (eek_keyboard_real_key_released key kb) in
     priv_level (priv kb') = level_of_mask (priv_modifiers (priv kb'))).
Proof.
  intros Hsym. cbv zeta.
  rewrite (key_pressed_priv _ _ _ Hsym), (key_released_priv _ _ _ Hsym).
  split; reflexivity.
Qed.

(** *** The modifier mask on press *)

(** The modifier mask under Latch.  A press behaves as if the mask had
    been empty on entry, whatever the key: the mask it leaves is the pressed
    key's own contribution (empty when the key has no symbol or its
    symbol is no modifier), so after two presses in a row nothing of
    the first key's modifier is left in the mask; and when the pressed
    key resolves a symbol, the level it leaves is the one its own
    contribution determines. *)
Theorem latch_resets_on_every_press (key : EekKey) (kb : EekKeyboard) :
  priv_modifier_behavior (priv kb) = EEK_MODIFIER_BEHAVIOR_LATCH ->
  eek_keyboard_real_key_pressed key kb =
    eek_keyboard_real_key_pressed key (with_modifiers kb 0)
  ∧ priv_modifiers (priv (after (eek_keyboard_real_key_pressed key kb))) =
      match resolved key kb with
      | Some symbol => Z.lor 0 (eek_symbol_get_modifier_mask symbol)
      | None => 0
      end
  ∧ (forall key0 kb0,
       kb = after (eek_keyboard_real_key_pressed key0 kb0) ->
       priv_modifiers (priv (after (run [KeyPressed key0; KeyPressed key] kb0))) =
       match resolved key kb with
       | Some symbol => eek_symbol_get_modifier_mask symbol
       | None => 0
       end)
  ∧ (forall symbol,
       resolved key kb = Some symbol ->
       priv_level (priv (after (eek_keyboard_real_key_pressed key kb))) =
       level_of_mask (eek_symbol_get_modifier_mask symbol)).
Proof.
  intros Hb.
  assert (Hmask :
    priv_modifiers (priv (after (eek_keyboard_real_key_pressed key kb))) =
      match resolved key kb with
      | Some symbol => Z.lor 0 (eek_symbol_get_modifier_mask symbol)
      | None => 0
      end).
  { destruct (resolved key kb) as [symbol|] eqn:Hsym.
    - rewrite (key_pressed_priv _ _ _ Hsym). cbv zeta. rewrite Hb.
      cbn [priv priv_modifiers].
      destruct (decide (EEK_MODIFIER_BEHAVIOR_LATCH = EEK_MODIFIER_BEHAVIOR_LATCH));
        [|congruence].
      case_decide as Hm; [reflexivity|].
      rewrite Hm. reflexivity.
    - rewrite (key_pressed_none _ _ Hsym), Hb.
      destruct (decide (EEK_MODIFIER_BEHAVIOR_LATCH = EEK_MODIFIER_BEHAVIOR_LATCH));
        [reflexivity | congruence]. }
  split; [|split; [|split]]; cycle 3.
  - intros symbol Hsym.
    destruct (level_follows_mask_when_resolved key kb symbol Hsym) as [Hlevel _].
    cbv zeta in Hlevel. rewrite Hlevel, Hmask, Hsym. now rewrite Z.lor_0_l.
  - rewrite !key_pressed_run. cbv zeta.
    destruct kb as [[g l b m] cs]. cbn in Hb. subst b.
    reflexivity.
  - exact Hmask.
  - intros key0 kb0 ->.
    cbn [run handle]. unfold mbind, Eek_bind, mret, Eek_ret, after in *.
    destruct (eek_keyboard_real_key_pressed key0 kb0) as [[[] kb1] out1].
    cbn [fst snd] in *.
    destruct (eek_keyboard_real_key_pressed key kb1) as [[[] kb2] out2].
    cbn [fst snd] in *. rewrite Hmask.
    destruct (resolved key kb1); [apply Z.lor_0_l | reflexivity].
Qed.

(** C4, as the code has it. A press whose resolved symbol carries a
    non-zero modifier mask [m] leaves the mask [old OR m] under None,
    [m] under Latch (the mask is empty after the Latch reset, then [m]
    is ORed in) and [old XOR m] under Lock.  A press whose resolved
    symbol carries no modifier leaves the mask unchanged under None and
    Lock and empty under Latch. *)
Theorem press_modifier_contribution
    (key : EekKey) (kb : EekKeyboard) (symbol : EekSymbol) :
  resolved key kb = Some symbol ->
  let m := eek_symbol_get_modifier_mask symbol in
  let old := priv_modifiers (priv kb) in
  let new := priv_modifiers (priv (after (eek_keyboard_real_key_pressed key kb))) in
  (m ≠ 0 ->
   match priv_modifier_behavior (priv kb) with
   | EEK_MODIFIER_BEHAVIOR_NONE => new = Z.lor old m
   | EEK_MODIFIER_BEHAVIOR_LATCH => new = m
   | EEK_MODIFIER_BEHAVIOR_LOCK => new = Z.lxor old m
   end)
  ∧ (m = 0 ->
     match priv_modifier_behavior (priv kb) with
     | EEK_MODIFIER_BEHAVIOR_LATCH => new = 0
     | _ => new = old
     end).
Proof.
  intros Hsym. cbv zeta. rewrite (key_pressed_priv _ _ _ Hsym). cbv zeta.
  cbn [priv priv_modifiers].
  split; intros Hm.
  - rewrite (decide_True (P := _ ≠ 0)) by exact Hm.
    destruct (priv_modifier_behavior (priv kb));
      repeat case_decide; try congruence; reflexivity.
  - rewrite (decide_False (P := _ ≠ 0)) by (intros Hne; now apply Hne).
    destruct (priv_modifier_behavior (priv kb));
      repeat case_decide; try congruence; reflexivity.
Qed.

(** *** The modifier mask on release *)

(** C5. A release whose resolved symbol carries a non-zero modifier
    mask [m] clears the bits of [m] from the mask under None (every
    other bit of the 32-bit mask keeps its value) and leaves the mask as
    it is under Latch and Lock. *)
Theorem release_modifier_contribution
    (key : EekKey) (kb : EekKeyboard) (symbol : EekSymbol) :
  resolved key kb = Some symbol ->
  eek_symbol_get_modifier_mask symbol ≠ 0 ->
  let m := eek_symbol_get_modifier_mask symbol in
  let old := priv_modifiers (priv kb) in
  let new := priv_modifiers (priv (after (eek_keyboard_real_key_released key kb))) in
  match priv_modifier_behavior (priv kb) with
  | EEK_MODIFIER_BEHAVIOR_NONE =>
      new = Z.land old (guint_not m)
      ∧ Z.land new m = 0
      ∧ (forall i, 0 <= i < 32 ->
           Z.testbit new i = Z.testbit old i && negb (Z.testbit m i))
  | EEK_MODIFIER_BEHAVIOR_LATCH => new = old
  | EEK_MODIFIER_BEHAVIOR_LOCK => new = old
  end.
Proof.
  intros Hsym Hm. cbv zeta. rewrite (key_released_priv _ _ _ Hsym). cbv zeta.
  cbn [priv priv_modifiers].
  destruct (priv_modifier_behavior (priv kb)).
  - rewrite decide_True by (split; [exact Hm | reflexivity]).
    split; [reflexivity|]. split.
    + apply land_guint_not_clears.
    + intros i Hi. now apply land_guint_not_bits.
  - rewrite decide_False by (intros [_ Hb]; discriminate Hb). reflexivity.
  - rewrite decide_False by (intros [_ Hb]; discriminate Hb). reflexivity.
Qed.

(** C8, as the code has it. Under None, with the mask holding SHIFT
    and the level at 1, the release of a key that resolves, at the
    current (group, level), a symbol whose modifier mask is SHIFT
    empties the mask, brings the level to 0 and emits the
    symbol-index-changed notification, with no further keypress. *)
Theorem release_shift_notifies
    (key : EekKey) (kb : EekKeyboard) (symbol : EekSymbol) :
  priv_modifier_behavior (priv kb) = EEK_MODIFIER_BEHAVIOR_NONE ->
  priv_modifiers (priv kb) = EEK_SHIFT_MASK ->
  priv_level (priv kb) = 1 ->
  resolved key kb = Some symbol ->
  eek_symbol_get_modifier_mask symbol = EEK_SHIFT_MASK ->
  let r := eek_keyboard_real_key_released key kb in
  priv_modifiers (priv (after r)) = 0
  ∧ priv_level (priv (after r)) = 0
  ∧ emitted r = [symbol_index_changed (priv_group (priv kb)) 0].
Proof.
  intros Hb Hmods Hlevel Hsym Hmask. cbv zeta.
  assert (Hnew :
    (if decide (eek_symbol_get_modifier_mask symbol ≠ 0
                ∧ priv_modifier_behavior (priv kb) = EEK_MODIFIER_BEHAVIOR_NONE)
     then Z.land (priv_modifiers (priv kb))
            (guint_not (eek_symbol_get_modifier_mask symbol))
     else priv_modifiers (priv kb)) = 0).
  { case_decide as Hd.
    - rewrite Hmods, Hmask.
      rewrite <- (Z.land_diag EEK_SHIFT_MASK) at 1.
      rewrite <- Z.land_assoc, (Z.land_comm EEK_SHIFT_MASK (guint_not _)).
      rewrite Z.land_assoc. apply land_guint_not_clears.
    - rewrite Hmods, <- Hmask.
      destruct (decide (eek_symbol_get_modifier_mask symbol = 0)) as [H0|Hne];
        [exact H0 | exfalso; apply Hd; split; assumption]. }
  split; [|split].
  - rewrite (key_released_priv _ _ _ Hsym). cbv zeta. exact Hnew.
  - rewrite (key_released_priv _ _ _ Hsym). cbv zeta.
    cbn [priv priv_level]. rewrite Hnew. apply level_of_mask_0.
  - rewrite key_released_run. cbv zeta. rewrite Hsym.
    rewrite set_level_from_modifiers_emitted.
    match goal with
    | |- context [priv (if ?d then ?a else ?b)] =>
        assert (Hk : priv_modifiers (priv (if d then a else b)) = 0
                     ∧ priv_level (priv (if d then a else b)) = 1
                     ∧ priv_group (priv (if d then a else b)) = priv_group (priv kb))
    end.
    { case_decide as Hd; repeat split; first [exact Hnew | exact Hlevel]. }
    destruct Hk as (Hk1 & Hk2 & Hk3). rewrite Hk1, Hk2, Hk3, level_of_mask_0.
    rewrite decide_False by discriminate. reflexivity.
Qed.

(** *** Notifications *)

Lemma set_symbol_index_notifies g l kb :
  let r := eek_keyboard_real_set_symbol_index g l kb in
  emitted r =
  if decide (symbol_index (after r) = symbol_index kb) then []
  else [symbol_index_changed (priv_group (priv (after r)))
          (priv_level (priv (after r)))].
Proof.
  cbv zeta. rewrite set_symbol_index_run. unfold symbol_index.
  destruct kb as [[g0 l0 b m] cs]. cbn [priv priv_group priv_level].
  destruct (decide (g0 = g ∧ l0 = l)) as [[-> ->]|Hne];
    unfold emitted, after, with_index; cbn.
  - rewrite decide_True by reflexivity. reflexivity.
  - rewrite decide_False; [reflexivity|].
    intros Heq. apply Hne. injection Heq as -> ->. split; reflexivity.
Qed.

Lemma handle_notifies e kb :
  let r := handle e kb in
  emitted r =
  if decide (symbol_index (after r) = symbol_index kb) then []
  else [symbol_index_changed (priv_group (priv (after r)))
          (priv_level (priv (after r)))].
Proof.
  cbv zeta. destruct e as [key|key]; cbn [handle].
  - rewrite key_pressed_run. cbv zeta.
    destruct (resolved key kb) as [symbol|].
    + rewrite set_level_from_modifiers_run.
      rewrite set_symbol_index_notifies.
      match goal with
      | |- context [symbol_index (if ?d1 then with_modifiers (if ?d2 then ?a else ?b) ?m else ?c)] =>
          replace (symbol_index (if d1 then with_modifiers (if d2 then a else b) m else c))
            with (symbol_index kb)
            by (destruct d1, d2, kb as [[? ? ? ?] ?]; reflexivity)
      end.
      reflexivity.
    + unfold emitted, after. cbn [fst snd].
      rewrite decide_True; [reflexivity|].
      case_decide; [destruct kb as [[? ? ? ?] ?]|]; reflexivity.
  - rewrite key_released_run. cbv zeta.
    destruct (resolved key kb) as [symbol|].
    + rewrite set_level_from_modifiers_run.
      rewrite set_symbol_index_notifies.
      match goal with
      | |- context [symbol_index (if ?d1 then with_modifiers ?a ?m else ?c)] =>
          replace (symbol_index (if d1 then with_modifiers a m else c))
            with (symbol_index kb)
            by (destruct d1, kb as [[? ? ? ?] ?]; reflexivity)
      end.
      reflexivity.
    + unfold emitted, after. cbn [fst snd].
      rewrite decide_True; reflexivity.
Qed.

(** C7. An event has one outcome.  It emits exactly one
    symbol-index-changed notification, carrying the new (group, level),
    when the (group, level) after the event differs from the one before,
    and no notification when they are equal. *)
Theorem event_notifies_index_change
    (kb : EekKeyboard) (e : Event) (out : list Signal) (kb' : EekKeyboard) :
  step kb e out kb' ->
  (forall out2 kb2, step kb e out2 kb2 -> kb2 = kb' ∧ out2 = out)
  ∧ (symbol_index kb' ≠ symbol_index kb ->
     out = [symbol_index_changed (priv_group (priv kb')) (priv_level (priv kb'))])
  ∧ (symbol_index kb' = symbol_index kb -> out = []).
Proof.
  intros Hstep. inversion Hstep as [Hout Hkb]. clear Hstep.
  split; [|split].
  - intros out2 kb2 Hstep2. inversion Hstep2. split; reflexivity.
  - intros Hne. rewrite handle_notifies. cbv zeta.
    rewrite decide_False by exact Hne. reflexivity.
  - intros Heq. rewrite handle_notifies. cbv zeta.
    rewrite decide_True by exact Heq. reflexivity.
Qed.

(** *** Level and mask *)

Lemma run_cons_after e es kb :
  after (run (e :: es) kb) = after (run es (after (handle e kb))).
Proof.
  cbn [run]. unfold mbind, Eek_bind, after.
  destruct (handle e kb) as [[[] kb1] out1]. cbn [fst snd].
  destruct (run es kb1) as [[[] kb2] out2]. reflexivity.
Qed.

Lemma run_app_after es1 es2 kb :
  after (run (es1 ++ es2) kb) = after (run es2 (after (run es1 kb))).
Proof.
  revert kb. induction es1 as [|e es1 IH]; intros kb.
  - reflexivity.
  - cbn [app]. rewrite !run_cons_after. apply IH.
Qed.

Lemma reachable_run es kb0 kb :
  reachable kb0 kb -> reachable kb0 (after (run es kb)).
Proof.
  revert kb. induction es as [|e es IH]; intros kb Hreach.
  - exact Hreach.
  - rewrite run_cons_after. apply IH.
    eapply reachable_step; [exact Hreach | constructor].
Qed.

(** Under None and Lock the handlers keep the level in step with the
    mask. *)
Lemma level_follows_mask_unless_latch e kb :
  priv_modifier_behavior (priv kb) ≠ EEK_MODIFIER_BEHAVIOR_LATCH ->
  priv_level (priv kb) = level_of_mask (priv_modifiers (priv kb)) ->
  let kb' := after (handle e kb) in
  priv_level (priv kb') = level_of_mask (priv_modifiers (priv kb'))
  ∧ priv_modifier_behavior (priv kb') = priv_modifier_behavior (priv kb).
Proof.
  intros Hb Hinv. cbv zeta. destruct e as [key|key]; cbn [handle];
    destruct (resolved key kb) as [symbol|] eqn:Hsym.
  - rewrite (key_pressed_priv _ _ _ Hsym). split; reflexivity.
  - rewrite (key_pressed_none _ _ Hsym), decide_False by exact Hb.
    split; [exact Hinv | reflexivity].
  - rewrite (key_released_priv _ _ _ Hsym). split; reflexivity.
  - rewrite (key_released_none _ _ Hsym). split; [exact Hinv | reflexivity].
Qed.

(** *** Locked modifiers *)

Lemma lock_press_release key kb s1 s2 :
  priv_modifier_behavior (priv kb) = EEK_MODIFIER_BEHAVIOR_LOCK ->
  resolved key kb = Some s1 ->
  eek_symbol_get_modifier_mask s1 ≠ 0 ->
  eek_key_get_symbol_at_index key (priv_group (priv kb))
    (level_of_mask (Z.lxor (priv_modifiers (priv kb))
                      (eek_symbol_get_modifier_mask s1))) = Some s2 ->
  after (run (press_release key 1) kb) =
  {| priv := {| priv_group := priv_group (priv kb);
                priv_level := level_of_mask
                  (Z.lxor (priv_modifiers (priv kb))
                     (eek_symbol_get_modifier_mask s1));
                priv_modifier_behavior := EEK_MODIFIER_BEHAVIOR_LOCK;
                priv_modifiers := Z.lxor (priv_modifiers (priv kb))
                                    (eek_symbol_get_modifier_mask s1) |};
     children := children kb |}.
Proof.
  intros Hb Hs1 Hm Hs2.
  cbn [press_release]. rewrite !run_cons_after. cbn [run handle].
  rewrite (key_pressed_priv _ _ _ Hs1). cbv zeta. rewrite Hb.
  rewrite (decide_False (P := _ = EEK_MODIFIER_BEHAVIOR_LATCH)) by discriminate.
  rewrite (decide_True (P := _ ≠ 0)) by exact Hm.
  rewrite (key_released_priv _ _ s2) by exact Hs2.
  cbv zeta. cbn [priv children priv_group priv_level
                 priv_modifier_behavior priv_modifiers].
  rewrite decide_False by (intros [_ Hn]; discriminate Hn).
  reflexivity.
Qed.

Lemma press_release_add key (a b : nat) :
  press_release key (a + b) = press_release key a ++ press_release key b.
Proof.
  induction a as [|a IH]; cbn [press_release Nat.add app];
    [reflexivity | now rewrite IH].
Qed.

(** C6, as the code has it. Under Lock, take a key that resolves a
    symbol with modifier mask [M] both at the current level and at the
    level the mask gives once [M] is toggled, on a keyboard whose level
    agrees with its mask and whose mask has [M] clear.  One
    press-release pair sets [M] in the mask and moves the level to the
    one the new mask determines; a second pair brings the keyboard back
    to the state it started from, and so does any even number of
    pairs. *)
Theorem lock_toggles_modifier
    (key : EekKey) (kb : EekKeyboard) (s1 s2 : EekSymbol) :
  priv_modifier_behavior (priv kb) = EEK_MODIFIER_BEHAVIOR_LOCK ->
  priv_level (priv kb) = level_of_mask (priv_modifiers (priv kb)) ->
  resolved key kb = Some s1 ->
  eek_symbol_get_modifier_mask s1 ≠ 0 ->
  Z.land (priv_modifiers (priv kb)) (eek_symbol_get_modifier_mask s1) = 0 ->
  eek_key_get_symbol_at_index key (priv_group (priv kb))
    (level_of_mask (Z.lor (priv_modifiers (priv kb))
                      (eek_symbol_get_modifier_mask s1))) = Some s2 ->
  eek_symbol_get_modifier_mask s2 = eek_symbol_get_modifier_mask s1 ->
  let M := eek_symbol_get_modifier_mask s1 in
  let kb1 := after (run (press_release key 1) kb) in
  priv_modifiers (priv kb1) = Z.lor (priv_modifiers (priv kb)) M
  ∧ Z.land (priv_modifiers (priv kb1)) M = M
  ∧ priv_level (priv kb1) = level_of_mask (Z.lor (priv_modifiers (priv kb)) M)
  ∧ after (run (press_release key 1) kb1) = kb
  ∧ after (run (press_release key 2) kb) = kb
  ∧ (forall n : nat, after (run (press_release key (2 * n)) kb) = kb).
Proof.
  intros Hb Hinv Hs1 Hm Hclear Hs2 Hmask. cbv zeta.
  pose proof (Z.lxor_lor _ _ Hclear) as Hxor.
  assert (Hfirst := lock_press_release key kb s1 s2 Hb Hs1 Hm).
  rewrite Hxor in Hfirst. specialize (Hfirst Hs2).
  assert (Hsecond :
    after (run (press_release key 1) (after (run (press_release key 1) kb))) = kb).
  { rewrite Hfirst.
    rewrite (lock_press_release key _ s2 s1); cbn [priv children priv_group
      priv_level priv_modifier_behavior priv_modifiers]; rewrite ?Hmask.
    - rewrite <- Hxor, Z.lxor_assoc, Z.lxor_nilpotent, Z.lxor_0_r.
      rewrite <- Hinv, <- Hb. destruct kb as [[g l b m] cs]. reflexivity.
    - reflexivity.
    - exact Hs2.
    - exact Hm.
    - rewrite <- Hxor, Z.lxor_assoc, Z.lxor_nilpotent, Z.lxor_0_r.
      rewrite <- Hinv. exact Hs1. }
  assert (Htwo : after (run (press_release key 2) kb) = kb).
  { change 2%nat with (1 + 1)%nat.
    rewrite press_release_add, run_app_after. exact Hsecond. }
  repeat split.
  - rewrite Hfirst. reflexivity.
  - rewrite Hfirst. cbn [priv priv_modifiers].
    apply Z.bits_inj'. intros i Hi.
    rewrite Z.land_spec, Z.lor_spec.
    destruct (Z.testbit (priv_modifiers (priv kb)) i),
      (Z.testbit (eek_symbol_get_modifier_mask s1) i); reflexivity.
  - rewrite Hfirst. reflexivity.
  - exact Hsecond.
  - exact Htwo.
  - intros n. induction n as [|n IH].
    + reflexivity.
    + replace (2 * S n)%nat with (2 + 2 * n)%nat by lia.
      rewrite press_release_add, run_app_after, Htwo. exact IH.
Qed.

(** *** Keycode lookup *)

Lemma find_app_first {A : Type} (p : A -> bool) (l1 l2 : list A) :
  List.find p (l1 ++ l2) =
  match List.find p l1 with
  | Some x => Some x
  | None => List.find p l2
  end.
Proof.
  induction l1 as [|x l1 IH]; cbn [List.find app]; [reflexivity|].
  destruct (p x); [reflexivity | exact IH].
Qed.

Lemma section_callback_run element data :
  find_key_by_keycode_section_callback element data =
  let found := eek_section_find_key_by_keycode element (data_keycode data) in
  (match found with Some _ => 0 | None => -1 end,
   {| data_key := found; data_keycode := data_keycode data |}).
Proof.
  unfold find_key_by_keycode_section_callback. cbn [data_key data_keycode].
  destruct (eek_section_find_key_by_keycode _ _); reflexivity.
Qed.

Lemma container_find_first cs data :
  let r := eek_container_find_children cs
             find_key_by_keycode_section_callback data in
  match r.1 with
  | Some _ => data_key r.2
  | None => None
  end =
  List.find (fun k => Z.eqb (key_keycode k) (data_keycode data))
    (concat (map section_keys cs)).
Proof.
  cbv zeta. revert data. induction cs as [|element rest IH]; intros data.
  - reflexivity.
  - cbn [eek_container_find_children map concat].
    rewrite find_app_first, section_callback_run. cbv zeta.
    unfold eek_section_find_key_by_keycode.
    destruct (List.find _ (section_keys element)) as [k|] eqn:Hfind.
    + rewrite decide_True by reflexivity. reflexivity.
    + rewrite decide_False by discriminate. rewrite IH. reflexivity.
Qed.

(** C9. The lookup returns the first key carrying the keycode, the
    sections taken in insertion order and the keys of a section in
    theirs; a keycode no section holds yields no key; and the lookup
    changes nothing on the keyboard and emits nothing. *)
Theorem find_key_by_keycode_first_match (kb : EekKeyboard) (keycode : Z) :
  let r := eek_keyboard_find_key_by_keycode keycode kb in
  result r = List.find (fun k => Z.eqb (key_keycode k) keycode) (all_keys kb)
  ∧ (forall k, result r = Some k ->
       key_keycode k = keycode
       ∧ exists before rest,
           all_keys kb = before ++ k :: rest
           ∧ Forall (fun k' => key_keycode k' ≠ keycode) before)
  ∧ (Forall (fun k => key_keycode k ≠ keycode) (all_keys kb) ->
     result r = None)
  ∧ after r = kb
  ∧ emitted r = [].
Proof.
  cbv zeta.
  assert (Hrun :
    eek_keyboard_find_key_by_keycode keycode kb =
    (List.find (fun k => Z.eqb (key_keycode k) keycode) (all_keys kb), kb, [])).
  { unfold eek_keyboard_find_key_by_keycode,
      eek_keyboard_real_find_key_by_keycode, eek_container_find, all_keys.
    eek_unfold.
    pose proof (container_find_first (children kb)
                  {| data_key := None; data_keycode := keycode |}) as Hfirst.
    cbv zeta in Hfirst. cbn [data_keycode] in Hfirst. rewrite <- Hfirst.
    destruct (eek_container_find_children _ _ _) as [[sec|] data];
      reflexivity. }
  rewrite Hrun. unfold result, after, emitted. cbn [fst snd].
  split; [reflexivity|]. split; [|split; [|split; reflexivity]].
  - intros k Hfind. generalize (all_keys kb) Hfind. clear.
    intros l. induction l as [|x l IH]; cbn [List.find]; [discriminate|].
    destruct (Z.eqb (key_keycode x) keycode) eqn:Hx.
    + intros [= <-]. split; [now apply Z.eqb_eq|].
      exists [], l. split; [reflexivity | constructor].
    + intros Hfind. destruct (IH Hfind) as (Hk & before & rest & -> & Hall).
      split; [exact Hk|]. exists (x :: before), rest.
      split; [reflexivity|]. constructor; [now apply Z.eqb_neq | exact Hall].
  - intros Hall. clear Hrun.
    induction Hall as [|x l Hx _ IH]; cbn [List.find];
      [reflexivity|].
    apply Z.eqb_neq in Hx. rewrite Hx. exact IH.
Qed.

End Properties.

(** ** The properties on the example keyboard *)

Section Examples.
#[local] Existing Instance x11_masks.

(** C1 as stated fails under Latch: after Shift has been latched, a
    press of the key without symbols empties the modifier mask. *)
Lemma press_without_symbol_latch_clears_mask :
  let kb := after (run [KeyPressed shift_key]
                     (demo_keyboard EEK_MODIFIER_BEHAVIOR_LATCH)) in
  resolved blank_key kb = None
  ∧ priv_modifiers (priv kb) = 1
  ∧ priv_modifiers (priv (after (eek_keyboard_real_key_pressed blank_key kb))) = 0
  ∧ after (eek_keyboard_real_key_pressed blank_key kb) ≠ kb.
Proof.
  cbv zeta. repeat split; try (vm_compute; reflexivity).
  intros Heq.
  apply (f_equal (fun k => priv_modifiers (priv k))) in Heq.
  vm_compute in Heq. discriminate Heq.
Qed.

Lemma press_without_symbol_witness :
  resolved blank_key (keyboard_at 0 1 EEK_MODIFIER_BEHAVIOR_LATCH 1) = None
  ∧ emitted (eek_keyboard_real_key_pressed blank_key
               (keyboard_at 0 1 EEK_MODIFIER_BEHAVIOR_LATCH 1)) = []
  ∧ priv_modifiers
      (priv (after (eek_keyboard_real_key_pressed blank_key
                      (keyboard_at 0 1 EEK_MODIFIER_BEHAVIOR_LATCH 1)))) = 0.
Proof.
  split; [reflexivity|].
  destruct (press_without_symbol blank_key
              (keyboard_at 0 1 EEK_MODIFIER_BEHAVIOR_LATCH 1) eq_refl)
    as (Hout & _ & _ & _ & _ & Hlatch).
  split; [exact Hout | apply Hlatch; reflexivity].
Defined.

(** C2 fails on the code. Under Latch, press Shift and then the key
    without symbols: the mask is empty again, yet the level stays at 1,
    not at the level 0 the mask determines. *)
Theorem latch_leaves_level_out_of_step :
  let kb0 := demo_keyboard EEK_MODIFIER_BEHAVIOR_LATCH in
  let kb := after (run [KeyPressed shift_key; KeyPressed blank_key] kb0) in
  reachable kb0 kb
  ∧ priv_modifiers (priv kb) = 0
  ∧ priv_level (priv kb) = 1
  ∧ level_of_mask (priv_modifiers (priv kb)) = 0
  ∧ priv_level (priv kb) ≠ level_of_mask (priv_modifiers (priv kb)).
Proof.
  cbv zeta. split; [apply reachable_run; constructor|].
  repeat split; try (vm_compute; reflexivity).
  vm_compute. discriminate.
Qed.

Lemma latch_resets_on_every_press_witness :
  let kb := after (run [KeyPressed mod5_key]
                     (demo_keyboard EEK_MODIFIER_BEHAVIOR_LATCH)) in
  priv_modifier_behavior (priv kb) = EEK_MODIFIER_BEHAVIOR_LATCH
  ∧ priv_modifiers (priv kb) = 128
  ∧ priv_modifiers (priv (after (eek_keyboard_real_key_pressed shift_key kb))) = 1.
Proof.
  cbv zeta. split; [reflexivity|]. split; [reflexivity|].
  assert (Hb : priv_modifier_behavior
                 (priv (after (run [KeyPressed mod5_key]
                                 (demo_keyboard EEK_MODIFIER_BEHAVIOR_LATCH))))
               = EEK_MODIFIER_BEHAVIOR_LATCH) by reflexivity.
  destruct (latch_resets_on_every_press shift_key _ Hb) as (_ & Hmask & _).
  rewrite Hmask. reflexivity.
Defined.

(** C3 fails on the code. Under Latch, press Shift, then the key
    without symbols, then the letter key.  The first press after Shift
    is looked up at level 1 and finds nothing; it empties the mask but
    leaves the level at 1, so the second press after Shift is looked up
    at level 1 as well and resolves "A", where the fresh keyboard
    resolves "a": the latched Shift reaches two keypresses. *)
Theorem latch_reaches_second_keypress :
  let kb0 := demo_keyboard EEK_MODIFIER_BEHAVIOR_LATCH in
  let kb1 := after (run [KeyPressed shift_key] kb0) in
  let kb2 := after (run [KeyPressed shift_key; KeyPressed blank_key] kb0) in
  let kb3 := after (run [KeyPressed shift_key; KeyPressed blank_key;
                         KeyPressed a_key] kb0) in
  resolved a_key kb0 = Some letter_a
  ∧ priv_modifiers (priv kb1) = 1
  ∧ priv_level (priv kb1) = 1
  ∧ resolved blank_key kb1 = None
  ∧ priv_modifiers (priv kb2) = 0
  ∧ priv_level (priv kb2) = 1
  ∧ resolved a_key kb2 = Some letter_A
  ∧ priv_level (priv kb3) = 0.
Proof.
  cbv zeta. repeat split; vm_compute; reflexivity.
Qed.

(** C4 as stated fails under Latch: with Mod5 latched (mask 128), a
    press of Shift leaves the mask 1, not 128 OR 1. *)
Lemma latch_press_does_not_or_into_old_mask :
  let kb := after (run [KeyPressed mod5_key]
                     (demo_keyboard EEK_MODIFIER_BEHAVIOR_LATCH)) in
  priv_modifier_behavior (priv kb) = EEK_MODIFIER_BEHAVIOR_LATCH
  ∧ resolved shift_key kb = Some shift_symbol
  ∧ eek_symbol_get_modifier_mask shift_symbol ≠ 0
  ∧ priv_modifiers (priv kb) = 128
  ∧ priv_modifiers (priv (after (eek_keyboard_real_key_pressed shift_key kb))) = 1
  ∧ priv_modifiers (priv (after (eek_keyboard_real_key_pressed shift_key kb)))
    ≠ Z.lor (priv_modifiers (priv kb)) (eek_symbol_get_modifier_mask shift_symbol).
Proof.
  cbv zeta. repeat split; try (vm_compute; reflexivity);
    vm_compute; discriminate.
Qed.

Lemma press_modifier_contribution_witness :
  resolved shift_key (keyboard_at 0 2 EEK_MODIFIER_BEHAVIOR_LOCK 129)
    = Some shift_symbol
  ∧ priv_modifiers
      (priv (after (eek_keyboard_real_key_pressed shift_key
                      (keyboard_at 0 2 EEK_MODIFIER_BEHAVIOR_LOCK 129))))
    = Z.lxor 129 1.
Proof.
  split; [reflexivity|].
  destruct (press_modifier_contribution shift_key
              (keyboard_at 0 2 EEK_MODIFIER_BEHAVIOR_LOCK 129)
              shift_symbol eq_refl) as (Hset & _).
  apply Hset. discriminate.
Defined.

Lemma release_modifier_contribution_witness :
  resolved shift_key (keyboard_at 0 3 EEK_MODIFIER_BEHAVIOR_NONE 129)
    = Some shift_symbol
  ∧ eek_symbol_get_modifier_mask shift_symbol ≠ 0
  ∧ Z.land
      (priv_modifiers
         (priv (after (eek_keyboard_real_key_released shift_key
                         (keyboard_at 0 3 EEK_MODIFIER_BEHAVIOR_NONE 129)))))
      (eek_symbol_get_modifier_mask shift_symbol) = 0.
Proof.
  split; [reflexivity|]. split; [discriminate|].
  apply (release_modifier_contribution shift_key
           (keyboard_at 0 3 EEK_MODIFIER_BEHAVIOR_NONE 129)
           shift_symbol eq_refl).
  discriminate.
Defined.

(** C6 as stated fails for a Shift key whose only symbol sits at level
    0: the first press locks Shift and moves the level to 1, where the
    key resolves nothing, so the second press cannot unlock it. *)
Lemma lock_sparse_key_stays_locked :
  let kb := demo_keyboard EEK_MODIFIER_BEHAVIOR_LOCK in
  resolved shift_key_sparse kb = Some shift_symbol
  ∧ Z.land (priv_modifiers (priv kb))
      (eek_symbol_get_modifier_mask shift_symbol) = 0
  ∧ priv_modifiers (priv (after (run (press_release shift_key_sparse 2) kb))) = 1
  ∧ priv_level (priv (after (run (press_release shift_key_sparse 2) kb))) = 1
  ∧ after (run (press_release shift_key_sparse 2) kb) ≠ kb.
Proof.
  cbv zeta. repeat split; try (vm_compute; reflexivity).
  intros Heq.
  apply (f_equal (fun k => priv_modifiers (priv k))) in Heq.
  vm_compute in Heq. discriminate Heq.
Qed.

Lemma lock_toggles_modifier_witness :
  let kb := demo_keyboard EEK_MODIFIER_BEHAVIOR_LOCK in
  resolved shift_key kb = Some shift_symbol
  ∧ priv_modifiers (priv (after (run (press_release shift_key 1) kb))) = 1
  ∧ priv_level (priv (after (run (press_release shift_key 1) kb))) = 1
  ∧ after (run (press_release shift_key 2) kb) = kb.
Proof.
  cbv zeta. split; [reflexivity|].
  assert (Hmask : eek_symbol_get_modifier_mask shift_symbol ≠ 0) by discriminate.
  destruct (lock_toggles_modifier shift_key
              (demo_keyboard EEK_MODIFIER_BEHAVIOR_LOCK)
              shift_symbol shift_symbol)
    as (Hon & _ & Hlevel & _ & Htwo & _);
    [reflexivity | reflexivity | reflexivity | exact Hmask
     | reflexivity | reflexivity | reflexivity |].
  split; [exact Hon|]. split; [exact Hlevel | exact Htwo].
Defined.

Lemma event_notifies_index_change_witness :
  let kb := demo_keyboard EEK_MODIFIER_BEHAVIOR_NONE in
  step kb (KeyPressed shift_key)
    (emitted (handle (KeyPressed shift_key) kb))
    (after (handle (KeyPressed shift_key) kb))
  ∧ emitted (handle (KeyPressed shift_key) kb) = [symbol_index_changed 0 1].
Proof.
  cbv zeta. split; [constructor|].
  destruct (event_notifies_index_change
              (demo_keyboard EEK_MODIFIER_BEHAVIOR_NONE) (KeyPressed shift_key)
              _ _ (step_handle _ _)) as (_ & Hchanged & _).
  apply Hchanged. vm_compute. discriminate.
Defined.

(** C8 as stated fails for a Shift key whose only symbol sits at level
    0.  Under None its press sets the mask to SHIFT and the level to 1;
    there the key resolves nothing, so its release changes nothing and
    emits nothing. *)
Lemma release_sparse_shift_key_changes_nothing :
  let kb := after (run [KeyPressed shift_key_sparse]
                     (demo_keyboard EEK_MODIFIER_BEHAVIOR_NONE)) in
  priv_modifier_behavior (priv kb) = EEK_MODIFIER_BEHAVIOR_NONE
  ∧ priv_modifiers (priv kb) = EEK_SHIFT_MASK
  ∧ priv_level (priv kb) = 1
  ∧ resolved shift_key_sparse kb = None
  ∧ eek_keyboard_real_key_released shift_key_sparse kb = (tt, kb, [])
  ∧ priv_modifiers
      (priv (after (eek_keyboard_real_key_released shift_key_sparse kb))) ≠ 0
  ∧ priv_level
      (priv (after (eek_keyboard_real_key_released shift_key_sparse kb))) ≠ 0
  ∧ emitted (eek_keyboard_real_key_released shift_key_sparse kb) = [].
Proof.
  cbv zeta. repeat split; try (vm_compute; reflexivity);
    vm_compute; discriminate.
Qed.

Lemma release_shift_notifies_witness :
  let kb := keyboard_at 0 1 EEK_MODIFIER_BEHAVIOR_NONE 1 in
  resolved shift_key kb = Some shift_symbol
  ∧ priv_modifiers (priv (after (eek_keyboard_real_key_released shift_key kb))) = 0
  ∧ priv_level (priv (after (eek_keyboard_real_key_released shift_key kb))) = 0
  ∧ emitted (eek_keyboard_real_key_released shift_key kb)
    = [symbol_index_changed 0 0].
Proof.
  cbv zeta. split; [reflexivity|].
  apply (release_shift_notifies shift_key
           (keyboard_at 0 1 EEK_MODIFIER_BEHAVIOR_NONE 1) shift_symbol);
    reflexivity.
Defined.

End Examples.

(** ** Further properties of the keyboard object *)

Section KeyboardProperties.
Context `{!EekModifierMasks}.

(** *** Setters and getters *)

Lemma get_group_run kb :
  eek_keyboard_get_group kb = (priv_group (priv kb), kb, []).
Proof. reflexivity. Qed.

Lemma get_level_run kb :
  eek_keyboard_get_level kb = (priv_level (priv kb), kb, []).
Proof. reflexivity. Qed.

Lemma set_symbol_index_after kb g l :
  after (eek_keyboard_set_symbol_index g l kb) = with_index kb g l.
Proof.
  unfold eek_keyboard_set_symbol_index. rewrite set_symbol_index_run.
  case_decide as Hsame; [|reflexivity].
  destruct Hsame as [<- <-]. now rewrite with_index_same.
Qed.

(** X1. What [eek_keyboard_set_symbol_index] stores is what the getters
    read back, through either out-parameter or both, and reading
    changes nothing and emits nothing. *)
Theorem set_symbol_index_read_back (kb : EekKeyboard) (g l : Z) :
  let kb' := after (eek_keyboard_set_symbol_index g l kb) in
  eek_keyboard_get_group kb' = (g, kb', [])
  ∧ eek_keyboard_get_level kb' = (l, kb', [])
  ∧ eek_keyboard_get_symbol_index true true kb' = ((Some g, Some l), kb', []).
Proof.
  cbv zeta. rewrite set_symbol_index_after.
  rewrite get_group_run, get_level_run.
  destruct kb as [[g0 l0 b m] cs]. repeat split; reflexivity.
Qed.

(** X2. Setting the group and then the level ends in the state that one
    call of [eek_keyboard_set_symbol_index] reaches, but notifies once
    per changed component: when both change, listeners first see the
    new group paired with the old level. *)
Theorem set_group_then_level (kb : EekKeyboard) (g l : Z) :
  let r := (eek_keyboard_set_group g;; eek_keyboard_set_level l) kb in
  after r = after (eek_keyboard_set_symbol_index g l kb)
  ∧ emitted r =
      (if decide (priv_group (priv kb) = g) then []
       else [symbol_index_changed g (priv_level (priv kb))])
      ++ (if decide (priv_level (priv kb) = l) then []
          else [symbol_index_changed g l])
  ∧ emitted (eek_keyboard_set_symbol_index g l kb) =
      (if decide (priv_group (priv kb) = g ∧ priv_level (priv kb) = l) then []
       else [symbol_index_changed g l]).
Proof.
  cbv zeta. unfold mbind, Eek_bind.
  rewrite set_group_run, set_symbol_index_after.
  unfold eek_keyboard_set_symbol_index. rewrite (set_symbol_index_run kb g l).
  rewrite (set_symbol_index_run kb g (priv_level (priv kb))).
  destruct kb as [[g0 l0 b m] cs]. cbn [priv priv_group priv_level].
  destruct (decide (g0 = g)) as [->|Hg]; destruct (decide (l0 = l)) as [->|Hl];
    repeat (case_decide; try (exfalso; intuition congruence));
    rewrite set_level_run, set_symbol_index_run; unfold with_index; cbn;
    repeat (case_decide; try (exfalso; intuition congruence));
    repeat split; reflexivity.
Qed.

(** X3. Storing the same symbol index again changes nothing and raises
    no second notification. *)
Theorem set_symbol_index_twice (kb : EekKeyboard) (g l : Z) :
  let kb' := after (eek_keyboard_set_symbol_index g l kb) in
  eek_keyboard_set_symbol_index g l kb' = (tt, kb', []).
Proof.
  cbv zeta. rewrite set_symbol_index_after.
  apply set_symbol_index_same; destruct kb as [[g0 l0 b m] cs]; reflexivity.
Qed.

(** *** 32-bit masks *)

Lemma guint_high_bits (x i : Z) :
  0 <= x < 2 ^ 32 -> 32 <= i -> Z.testbit x i = false.
Proof.
  intros Hx Hi. rewrite <- (Z.mod_small x (2 ^ 32)) by exact Hx.
  apply Z.mod_pow2_bits_high. lia.
Qed.

Lemma guint_of_high_bits (x : Z) :
  (forall i, 32 <= i -> Z.testbit x i = false) -> 0 <= x < 2 ^ 32.
Proof.
  intros Hhigh.
  assert (Heq : x mod 2 ^ 32 = x).
  { apply Z.bits_inj'. intros i Hi.
    destruct (Z_lt_dec i 32) as [Hlt|Hge].
    - apply Z.mod_pow2_bits_low. lia.
    - rewrite Z.mod_pow2_bits_high by lia. symmetry. apply Hhigh. lia. }
  rewrite <- Heq. apply Z.mod_pos_bound. lia.
Qed.

Lemma lor_guint (a b : Z) :
  0 <= a < 2 ^ 32 -> 0 <= b < 2 ^ 32 -> 0 <= Z.lor a b < 2 ^ 32.
Proof.
  intros Ha Hb. apply guint_of_high_bits. intros i Hi.
  now rewrite Z.lor_spec, !guint_high_bits.
Qed.

Lemma lxor_guint (a b : Z) :
  0 <= a < 2 ^ 32 -> 0 <= b < 2 ^ 32 -> 0 <= Z.lxor a b < 2 ^ 32.
Proof.
  intros Ha Hb. apply guint_of_high_bits. intros i Hi.
  now rewrite Z.lxor_spec, !guint_high_bits.
Qed.

Lemma land_guint (a b : Z) :
  0 <= a < 2 ^ 32 -> 0 <= Z.land a b < 2 ^ 32.
Proof.
  intros Ha. apply guint_of_high_bits. intros i Hi.
  now rewrite Z.land_spec, guint_high_bits.
Qed.

Lemma lor_land_guint_not (x m : Z) :
  0 <= x < 2 ^ 32 -> Z.land x m = 0 ->
  Z.land (Z.lor x m) (guint_not m) = x.
Proof.
  intros Hx Hclear. apply Z.bits_inj'. intros i Hi.
  assert (Hbit : Z.testbit x i && Z.testbit m i = false)
    by now rewrite <- Z.land_spec, Hclear, Z.bits_0.
  destruct (Z_lt_dec i 32) as [Hlt|Hge].
  - rewrite land_guint_not_bits, Z.lor_spec by lia.
    destruct (Z.testbit x i), (Z.testbit m i); try reflexivity; discriminate.
  - rewrite Z.land_spec. unfold guint_not.
    rewrite Z.mod_pow2_bits_high, andb_false_r by lia.
    symmetry. apply guint_high_bits; [exact Hx | lia].
Qed.

Lemma level_of_mask_range (m : Z) : 0 <= level_of_mask m <= 3.
Proof.
  unfold level_of_mask.
  destruct (bool_decide _), (bool_decide _); cbn; lia.
Qed.

(** *** Shape of one event *)

Lemma handle_after_shape e kb :
  exists l m,
    after (handle e kb) =
    {| priv := {| priv_group := priv_group (priv kb);
                  priv_level := l;
                  priv_modifier_behavior := priv_modifier_behavior (priv kb);
                  priv_modifiers := m |};
       children := children kb |}.
Proof.
  destruct e as [key|key]; cbn [handle];
    destruct (resolved key kb) as [symbol|] eqn:Hsym.
  - rewrite (key_pressed_priv _ _ _ Hsym). cbv zeta. eauto.
  - rewrite (key_pressed_none _ _ Hsym). unfold after; cbn [fst snd].
    destruct kb as [[g l b m] cs]. case_decide; cbn; eauto.
  - rewrite (key_released_priv _ _ _ Hsym). cbv zeta. eauto.
  - rewrite (key_released_none _ _ Hsym). unfold after; cbn [fst snd].
    destruct kb as [[g l b m] cs]. eauto.
Qed.

Lemma handle_emitted_shape e kb :
  emitted (handle e kb) = []
  ∨ exists m, emitted (handle e kb) =
      [symbol_index_changed (priv_group (priv kb)) (level_of_mask m)].
Proof.
  destruct e as [key|key]; cbn [handle].
  - rewrite key_pressed_run. cbv zeta.
    destruct (resolved key kb) as [symbol|]; [|left; reflexivity].
    rewrite set_level_from_modifiers_emitted.
    case_decide; [left; reflexivity|right].
    eexists. f_equal. f_equal.
    destruct kb as [[g l b m] cs]. repeat case_decide; reflexivity.
  - rewrite key_released_run. cbv zeta.
    destruct (resolved key kb) as [symbol|]; [|left; reflexivity].
    rewrite set_level_from_modifiers_emitted.
    case_decide; [left; reflexivity|right].
    eexists. f_equal. f_equal.
    destruct kb as [[g l b m] cs]. repeat case_decide; reflexivity.
Qed.

Lemma run_cons_emitted e es kb :
  emitted (run (e :: es) kb) =
  emitted (handle e kb) ++ emitted (run es (after (handle e kb))).
Proof.
  cbn [run]. unfold mbind, Eek_bind, after, emitted.
  destruct (handle e kb) as [[[] kb1] out1]. cbn [fst snd].
  destruct (run es kb1) as [[[] kb2] out2]. reflexivity.
Qed.

(** *** Events on keys without a symbol, and on ordinary keys *)

(** X4. Events on keys that have no symbol at the current (group,
    level) are ignored: a sequence of such events, of any length,
    leaves the keyboard exactly as it was and emits nothing.  Under
    Latch this holds for releases only, because a press clears the mask
    before it looks the symbol up. *)
Theorem events_without_symbol_are_ignored (es : list Event) (kb : EekKeyboard) :
  Forall (fun e =>
            resolved (event_key e) kb = None
            ∧ (priv_modifier_behavior (priv kb) = EEK_MODIFIER_BEHAVIOR_LATCH ->
               exists key, e = KeyReleased key)) es ->
  run es kb = (tt, kb, []).
Proof.
  induction 1 as [|e es [Hnone Hlatch] _ IH]; [reflexivity|].
  assert (Hhandle : handle e kb = (tt, kb, [])).
  { destruct e as [key|key]; cbn [handle event_key] in *.
    - rewrite (key_pressed_none _ _ Hnone).
      case_decide as Hb; [|reflexivity].
      destruct (Hlatch Hb) as [key' Hkey]. discriminate Hkey.
    - apply (key_released_none _ _ Hnone). }
  cbn [run]. unfold mbind, Eek_bind. rewrite Hhandle, IH. reflexivity.
Qed.

(** X5. On a keyboard whose level agrees with its mask, an event on a
    key whose resolved symbol carries no modifier is invisible: under
    None and Lock neither its press nor its release changes the state
    or emits a notification, and under Latch its release does not. *)
Theorem ordinary_key_is_invisible
    (key : EekKey) (kb : EekKeyboard) (symbol : EekSymbol) :
  resolved key kb = Some symbol ->
  eek_symbol_get_modifier_mask symbol = 0 ->
  priv_level (priv kb) = level_of_mask (priv_modifiers (priv kb)) ->
  eek_keyboard_real_key_released key kb = (tt, kb, [])
  ∧ (priv_modifier_behavior (priv kb) ≠ EEK_MODIFIER_BEHAVIOR_LATCH ->
     eek_keyboard_real_key_pressed key kb = (tt, kb, [])).
Proof.
  intros Hsym Hm Hinv. split.
  - rewrite key_released_run. cbv zeta. rewrite Hsym, Hm.
    rewrite decide_False by (intros [Hne _]; now apply Hne).
    rewrite set_level_from_modifiers_run.
    apply set_symbol_index_same; [reflexivity | exact Hinv].
  - intros Hb. rewrite key_pressed_run. cbv zeta. rewrite Hsym, Hm.
    rewrite (decide_False (P := _ = EEK_MODIFIER_BEHAVIOR_LATCH)) by exact Hb.
    rewrite decide_False by (intros Hne; now apply Hne).
    rewrite set_level_from_modifiers_run.
    apply set_symbol_index_same; [reflexivity | exact Hinv].
Qed.

(** *** Invariants of event sequences *)

(** X6. No sequence of press and release events changes the group, the
    modifier behavior or the sections of the keyboard. *)
Theorem run_keeps_group_and_behavior (es : list Event) (kb : EekKeyboard) :
  let kb' := after (run es kb) in
  priv_group (priv kb') = priv_group (priv kb)
  ∧ priv_modifier_behavior (priv kb') = priv_modifier_behavior (priv kb)
  ∧ children kb' = children kb.
Proof.
  cbv zeta. revert kb. induction es as [|e es IH]; intros kb.
  - repeat split; reflexivity.
  - rewrite run_cons_after.
    destruct (IH (after (handle e kb))) as (Hg & Hb & Hc).
    destruct (handle_after_shape e kb) as (l & m & Hshape).
    rewrite Hg, Hb, Hc, Hshape. repeat split; reflexivity.
Qed.

(** X7. Under None and Lock the level keeps agreeing with the modifier
    mask along every sequence of events. *)
Theorem run_keeps_level_in_step (es : list Event) (kb : EekKeyboard) :
  priv_modifier_behavior (priv kb) ≠ EEK_MODIFIER_BEHAVIOR_LATCH ->
  priv_level (priv kb) = level_of_mask (priv_modifiers (priv kb)) ->
  let kb' := after (run es kb) in
  priv_level (priv kb') = level_of_mask (priv_modifiers (priv kb')).
Proof.
  cbv zeta. revert kb. induction es as [|e es IH]; intros kb Hb Hinv.
  - exact Hinv.
  - rewrite run_cons_after.
    destruct (level_follows_mask_unless_latch e kb Hb Hinv) as [Hinv' Hb'].
    apply IH; [rewrite Hb'; exact Hb | exact Hinv'].
Qed.

(** X8. A sequence of events emits at most one notification per event,
    and every notification carries the keyboard's group and a level
    between 0 and 3. *)
Theorem run_notifications_bounded (es : list Event) (kb : EekKeyboard) :
  (length (emitted (run es kb)) <= length es)%nat
  ∧ Forall (fun s => exists l,
              s = symbol_index_changed (priv_group (priv kb)) l ∧ 0 <= l <= 3)
      (emitted (run es kb)).
Proof.
  revert kb. induction es as [|e es IH]; intros kb.
  - split; [reflexivity | constructor].
  - rewrite run_cons_emitted.
    destruct (IH (after (handle e kb))) as [Hlen Hall].
    destruct (handle_after_shape e kb) as (l & m & Hshape).
    assert (Hg : priv_group (priv (after (handle e kb))) = priv_group (priv kb))
      by (rewrite Hshape; reflexivity).
    rewrite Hg in Hall.
    destruct (handle_emitted_shape e kb) as [Hnone|[m' Hone]].
    + rewrite Hnone. cbn [app length]. split; [lia | exact Hall].
    + rewrite Hone. cbn [app length]. split; [lia|].
      constructor; [|exact Hall].
      eexists. split; [reflexivity | apply level_of_mask_range].
Qed.

(** X9. No event takes the modifier mask out of the 32-bit range: if
    the mask is in range and so are the masks in the symbol matrices of
    the keys the events name, the mask is in range after the whole
    sequence. *)
Theorem run_keeps_mask_in_range (es : list Event) (kb : EekKeyboard) :
  Forall (fun e => masks_in_range (event_key e)) es ->
  0 <= priv_modifiers (priv kb) < 2 ^ 32 ->
  0 <= priv_modifiers (priv (after (run es kb))) < 2 ^ 32.
Proof.
  intros Hkeys. revert kb. induction Hkeys as [|e es He _ IH]; intros kb Hm.
  - exact Hm.
  - rewrite run_cons_after. apply IH. clear IH.
    destruct e as [key|key]; cbn [handle event_key] in *;
      destruct (resolved key kb) as [symbol|] eqn:Hsym.
    + pose proof (He _ _ _ Hsym) as Hs.
      rewrite (key_pressed_priv _ _ _ Hsym). cbv zeta.
      cbn [priv priv_modifiers].
      set (m1 := if decide (priv_modifier_behavior (priv kb)
                            = EEK_MODIFIER_BEHAVIOR_LATCH)
                 then 0 else priv_modifiers (priv kb)).
      assert (H1 : 0 <= m1 < 2 ^ 32)
        by (subst m1; case_decide; [lia | exact Hm]).
      clearbody m1.
      case_decide; [|exact H1].
      destruct (priv_modifier_behavior (priv kb));
        first [now apply lor_guint | now apply lxor_guint].
    + rewrite (key_pressed_none _ _ Hsym). unfold after; cbn [fst snd].
      case_decide; [|exact Hm].
      change (0 <= 0 < 2 ^ 32). lia.
    + rewrite (key_released_priv _ _ _ Hsym). cbv zeta.
      cbn [priv priv_modifiers].
      case_decide; [now apply land_guint | exact Hm].
    + rewrite (key_released_none _ _ Hsym). exact Hm.
Qed.

(** X10. A release never sets a modifier bit, whatever the behavior;
    and under None a press never clears one. *)
Theorem release_only_clears_press_only_sets (key : EekKey) (kb : EekKeyboard) :
  (let new := priv_modifiers (priv (after (eek_keyboard_real_key_released key kb))) in
   Z.land new (priv_modifiers (priv kb)) = new)
  ∧ (priv_modifier_behavior (priv kb) = EEK_MODIFIER_BEHAVIOR_NONE ->
     let new := priv_modifiers (priv (after (eek_keyboard_real_key_pressed key kb))) in
     Z.land (priv_modifiers (priv kb)) new = priv_modifiers (priv kb)).
Proof.
  split; cbv zeta.
  - destruct (resolved key kb) as [symbol|] eqn:Hsym.
    + rewrite (key_released_priv _ _ _ Hsym). cbv zeta.
      cbn [priv priv_modifiers].
      case_decide; [|apply Z.land_diag].
      rewrite (Z.land_comm (Z.land _ _)), Z.land_assoc, Z.land_diag.
      reflexivity.
    + rewrite (key_released_none _ _ Hsym). apply Z.land_diag.
  - intros Hb. destruct (resolved key kb) as [symbol|] eqn:Hsym.
    + rewrite (key_pressed_priv _ _ _ Hsym). cbv zeta.
      cbn [priv priv_modifiers]. rewrite Hb.
      rewrite (decide_False (P := _ = EEK_MODIFIER_BEHAVIOR_LATCH)) by discriminate.
      case_decide; [|apply Z.land_diag].
      apply Z.bits_inj'. intros i _. rewrite Z.land_spec, Z.lor_spec.
      destruct (Z.testbit (priv_modifiers (priv kb)) i); reflexivity.
    + rewrite (key_pressed_none _ _ Hsym), Hb.
      rewrite decide_False by discriminate. apply Z.land_diag.
Qed.

(** *** Momentary and latched modifiers *)

(** X11. Under None a modifier key is momentary.  Take a key that
    resolves a symbol with modifier mask [M] both at the current level
    and at the level the mask gives once [M] is set, on a keyboard whose
    level agrees with its 32-bit mask and whose mask has [M] clear:
    the press sets [M] and moves the level accordingly, and the release
    that follows restores the state the keyboard started from. *)
Theorem none_press_release_round_trip
    (key : EekKey) (kb : EekKeyboard) (s1 s2 : EekSymbol) :
  priv_modifier_behavior (priv kb) = EEK_MODIFIER_BEHAVIOR_NONE ->
  priv_level (priv kb) = level_of_mask (priv_modifiers (priv kb)) ->
  0 <= priv_modifiers (priv kb) < 2 ^ 32 ->
  resolved key kb = Some s1 ->
  eek_symbol_get_modifier_mask s1 ≠ 0 ->
  Z.land (priv_modifiers (priv kb)) (eek_symbol_get_modifier_mask s1) = 0 ->
  eek_key_get_symbol_at_index key (priv_group (priv kb))
    (level_of_mask (Z.lor (priv_modifiers (priv kb))
                      (eek_symbol_get_modifier_mask s1))) = Some s2 ->
  eek_symbol_get_modifier_mask s2 = eek_symbol_get_modifier_mask s1 ->
  let M := eek_symbol_get_modifier_mask s1 in
  let kb1 := after (eek_keyboard_real_key_pressed key kb) in
  priv_modifiers (priv kb1) = Z.lor (priv_modifiers (priv kb)) M
  ∧ priv_level (priv kb1) = level_of_mask (Z.lor (priv_modifiers (priv kb)) M)
  ∧ after (eek_keyboard_real_key_released key kb1) = kb
  ∧ after (run (press_release key 1) kb) = kb.
Proof.
  intros Hb Hinv Hrange Hs1 Hm Hclear Hs2 Hmask. cbv zeta.
  assert (Hpress :
    after (eek_keyboard_real_key_pressed key kb) =
    {| priv := {| priv_group := priv_group (priv kb);
                  priv_level := level_of_mask
                    (Z.lor (priv_modifiers (priv kb))
                       (eek_symbol_get_modifier_mask s1));
                  priv_modifier_behavior := EEK_MODIFIER_BEHAVIOR_NONE;
                  priv_modifiers := Z.lor (priv_modifiers (priv kb))
                                      (eek_symbol_get_modifier_mask s1) |};
       children := children kb |}).
  { rewrite (key_pressed_priv _ _ _ Hs1). cbv zeta. rewrite Hb.
    rewrite (decide_False (P := _ = EEK_MODIFIER_BEHAVIOR_LATCH)) by discriminate.
    rewrite (decide_True (P := _ ≠ 0)) by exact Hm. reflexivity. }
  assert (Hrelease :
    after (eek_keyboard_real_key_released key
             (after (eek_keyboard_real_key_pressed key kb))) = kb).
  { rewrite Hpress. rewrite (key_released_priv _ _ s2) by exact Hs2.
    cbv zeta. cbn [priv children priv_group priv_level
                   priv_modifier_behavior priv_modifiers].
    rewrite Hmask.
    rewrite decide_True by (split; [exact Hm | reflexivity]).
    rewrite (lor_land_guint_not _ _ Hrange Hclear).
    rewrite <- Hinv, <- Hb. destruct kb as [[g l b m] cs]. reflexivity. }
  repeat split.
  - rewrite Hpress. reflexivity.
  - rewrite Hpress. reflexivity.
  - exact Hrelease.
  - cbn [press_release]. rewrite !run_cons_after. exact Hrelease.
Qed.

(** X12. Under Latch a modifier is one-shot.  Press a key whose symbol
    carries a non-zero mask [M], then a key that resolves, at the level
    [M] selects, a symbol without modifier: the second key is looked up
    at that level, and afterwards the mask is empty and the level is 0,
    whatever mask and level the keyboard had before. *)
Theorem latch_is_one_shot
    (modkey key : EekKey) (kb : EekKeyboard) (s1 s2 : EekSymbol) :
  priv_modifier_behavior (priv kb) = EEK_MODIFIER_BEHAVIOR_LATCH ->
  resolved modkey kb = Some s1 ->
  eek_symbol_get_modifier_mask s1 ≠ 0 ->
  eek_key_get_symbol_at_index key (priv_group (priv kb))
    (level_of_mask (eek_symbol_get_modifier_mask s1)) = Some s2 ->
  eek_symbol_get_modifier_mask s2 = 0 ->
  let kb1 := after (eek_keyboard_real_key_pressed modkey kb) in
  priv_modifiers (priv kb1) = eek_symbol_get_modifier_mask s1
  ∧ resolved key kb1 = Some s2
  ∧ after (run [KeyPressed modkey; KeyPressed key] kb) =
    {| priv := {| priv_group := priv_group (priv kb);
                  priv_level := 0;
                  priv_modifier_behavior := EEK_MODIFIER_BEHAVIOR_LATCH;
                  priv_modifiers := 0 |};
       children := children kb |}.
Proof.
  intros Hb Hs1 Hm Hs2 Hordinary. cbv zeta.
  assert (Hpress :
    after (eek_keyboard_real_key_pressed modkey kb) =
    {| priv := {| priv_group := priv_group (priv kb);
                  priv_level := level_of_mask (eek_symbol_get_modifier_mask s1);
                  priv_modifier_behavior := EEK_MODIFIER_BEHAVIOR_LATCH;
                  priv_modifiers := eek_symbol_get_modifier_mask s1 |};
       children := children kb |}).
  { rewrite (key_pressed_priv _ _ _ Hs1). cbv zeta. rewrite Hb.
    rewrite (decide_True (P := _ = EEK_MODIFIER_BEHAVIOR_LATCH)) by reflexivity.
    rewrite (decide_True (P := _ ≠ 0)) by exact Hm.
    rewrite Z.lor_0_l. reflexivity. }
  split; [rewrite Hpress; reflexivity|].
  split; [rewrite Hpress; exact Hs2|].
  rewrite !run_cons_after. cbn [run handle]. rewrite Hpress.
  rewrite (key_pressed_priv _ _ s2) by exact Hs2. cbv zeta.
  cbn [priv children priv_group priv_level
       priv_modifier_behavior priv_modifiers].
  rewrite (decide_True (P := _ = EEK_MODIFIER_BEHAVIOR_LATCH)) by reflexivity.
  rewrite Hordinary.
  rewrite decide_False by (intros Hne; now apply Hne).
  rewrite level_of_mask_0. reflexivity.
Qed.

(** *** Keycode lookup with unique keycodes *)

(** X13. When no two keys of the keyboard share a keycode, looking up
    the keycode of any key of the keyboard returns that very key. *)
Theorem find_key_by_keycode_of_key (kb : EekKeyboard) (key : EekKey) :
  NoDup (map key_keycode (all_keys kb)) ->
  In key (all_keys kb) ->
  result (eek_keyboard_find_key_by_keycode (key_keycode key) kb) = Some key.
Proof.
  intros Hnodup Hin.
  assert (Hrun :
    result (eek_keyboard_find_key_by_keycode (key_keycode key) kb) =
    List.find (fun k => Z.eqb (key_keycode k) (key_keycode key)) (all_keys kb)).
  { unfold eek_keyboard_find_key_by_keycode,
      eek_keyboard_real_find_key_by_keycode, eek_container_find, all_keys.
    eek_unfold.
    pose proof (container_find_first (children kb)
                  {| data_key := None; data_keycode := key_keycode key |})
      as Hfirst.
    cbv zeta in Hfirst. cbn [data_keycode] in Hfirst. rewrite <- Hfirst.
    destruct (eek_container_find_children _ _ _) as [[sec|] data];
      reflexivity. }
  rewrite Hrun. clear Hrun.
  induction (all_keys kb) as [|x keys IH]; [contradiction|].
  cbn [List.find map] in *.
  apply NoDup_cons in Hnodup as [Hx Hnodup].
  destruct Hin as [->|Hin].
  - now rewrite Z.eqb_refl.
  - destruct (Z.eqb (key_keycode x) (key_keycode key)) eqn:Heq.
    + apply Z.eqb_eq in Heq. exfalso. apply Hx. rewrite Heq.
      apply list_elem_of_In, in_map, Hin.
    + now apply IH.
Qed.

End KeyboardProperties.

(** ** Properties of the application's handlers *)

Section ApplicationProperties.
Context `{!X11Constants}.

(** *** [on_key_pressed] *)

Lemma land_pow2 (x k : Z) :
  0 <= k -> Z.land x (2 ^ k) = if Z.testbit x k then 2 ^ k else 0.
Proof.
  intros Hk. apply Z.bits_inj'. intros i Hi.
  rewrite Z.land_spec, Z.pow2_bits_eqb by exact Hk.
  destruct (Z.eqb_spec k i) as [->|Hne].
  - destruct (Z.testbit x i) eqn:Hx.
    + now rewrite Z.pow2_bits_true.
    + now rewrite Z.bits_0.
  - rewrite andb_false_r. destruct (Z.testbit x k).
    + rewrite Z.pow2_bits_false by congruence. reflexivity.
    + now rewrite Z.bits_0.
Qed.

Lemma on_key_pressed_toggles (keysym : Z) :
  exists c, forall index m, (on_key_pressed keysym index m).1 = Z.lxor m c.
Proof.
  unfold on_key_pressed. repeat case_decide.
  - exists ShiftMask. intros [g l] m. reflexivity.
  - exists ControlMask. reflexivity.
  - exists Mod1Mask. reflexivity.
  - exists 0. intros index m. cbn. now rewrite Z.lxor_0_r.
Qed.

Lemma on_keys_pressed_cons keysym index rest m :
  on_keys_pressed ((keysym, index) :: rest) m =
  let r1 := on_key_pressed keysym index m in
  let r2 := on_keys_pressed rest r1.1 in
  (r2.1, r1.2 ++ r2.2).
Proof.
  cbn [on_keys_pressed]. cbv zeta.
  destruct (on_key_pressed keysym index m) as [m1 c1]. cbn [fst snd].
  destruct (on_keys_pressed rest m1) as [m2 c2]. reflexivity.
Qed.

(** X15. A Shift key press toggles Shift in the application's modifier
    state, sends no fake key, and asks the keyboard for level 1 when
    Shift was up and level 0 when it was down, with the group the
    keyboard reported. *)
Theorem shift_press_selects_level
    (keysym : Z) (index : Z * Z) (m k : Z) :
  keysym = XK_Shift_L ∨ keysym = XK_Shift_R ->
  0 <= k ->
  ShiftMask = 2 ^ k ->
  on_key_pressed keysym index m =
    (Z.lxor m ShiftMask,
     [eek_keyboard_set_keysym_index index.1 (if Z.testbit m k then 0 else 1)])
  ∧ Z.testbit (Z.lxor m ShiftMask) k = negb (Z.testbit m k).
Proof.
  intros Hshift Hk Hmask.
  unfold on_key_pressed. rewrite decide_True by exact Hshift.
  destruct index as [g l]. cbn [fst]. rewrite !Hmask.
  assert (Hbit : Z.testbit (Z.lxor m (2 ^ k)) k = negb (Z.testbit m k)).
  { rewrite Z.lxor_spec, Z.pow2_bits_true by exact Hk.
    now destruct (Z.testbit m k). }
  split; [|exact Hbit].
  rewrite land_pow2, Hbit by exact Hk.
  assert (Hpow : 2 ^ k ≠ 0) by (apply Z.pow_nonzero; lia).
  destruct (Z.testbit m k); cbn [negb].
  - rewrite decide_False by (intros Hne; now apply Hne). reflexivity.
  - rewrite decide_True by exact Hpow. reflexivity.
Qed.

(** X16. Pressing the same key twice in a row leaves the application's
    modifier state as it was: a second tap of a modifier key undoes the
    first, and other keys never touch the modifiers: a press of a
    keysym that is none of the six modifier keysyms returns the
    modifiers unchanged and sends that keysym with them to the fake-key
    injector, and nothing else. *)
Theorem double_press_restores_modifiers
    (keysym : Z) (index index' : Z * Z) (m : Z) :
  (on_keys_pressed [(keysym, index); (keysym, index')] m).1 = m
  ∧ (is_modifier_keysym keysym = false ->
     on_key_pressed keysym index m = (m, [fakekey_press_keysym keysym m])).
Proof.
  split.
  - rewrite on_keys_pressed_cons. cbv zeta.
    rewrite on_keys_pressed_cons. cbv zeta. cbn [on_keys_pressed fst].
    destruct (on_key_pressed_toggles keysym) as [c Hc].
    rewrite !Hc. now rewrite Z.lxor_assoc, Z.lxor_nilpotent, Z.lxor_0_r.
  - intros Hordinary. unfold is_modifier_keysym in Hordinary.
    apply bool_decide_eq_false in Hordinary.
    unfold on_key_pressed.
    repeat (case_decide; [exfalso; apply Hordinary; tauto|]).
    reflexivity.
Qed.


(** X18. The keysyms sent to the fake-key injector are exactly the
    pressed keysyms that are none of the six modifier keysyms, in the
    order pressed. *)
Theorem fake_keys_are_the_ordinary_presses
    (presses : list (Z * (Z * Z))) (m : Z) :
  faked_keysyms (on_keys_pressed presses m).2 =
  List.filter (fun keysym => negb (is_modifier_keysym keysym))
    (map fst presses).
Proof.
  revert m. induction presses as [|[keysym index] rest IH]; intros m.
  - reflexivity.
  - rewrite on_keys_pressed_cons. cbv zeta. cbn [snd map fst List.filter].
    unfold faked_keysyms in *. rewrite omap_app, IH.
    unfold on_key_pressed, is_modifier_keysym.
    destruct index as [g l].
    repeat case_decide; cbn [snd omap app];
      first
        [ rewrite bool_decide_eq_true_2 by tauto; reflexivity
        | rewrite bool_decide_eq_false_2 by tauto; reflexivity ].
Qed.

End ApplicationProperties.

(** ** The further properties on the example keyboard *)

Section MoreExamples.
#[local] Existing Instance x11_masks.
#[local] Existing Instance x11_constants.

Lemma shift_key_masks_in_range : masks_in_range shift_key.
Proof.
  intros g l symbol Hsym.
  unfold eek_key_get_symbol_at_index, shift_key in Hsym.
  cbn [key_symbol_matrix] in Hsym.
  repeat (apply lookup_insert_Some in Hsym as [[_ <-]|[_ Hsym]];
          [vm_compute; split; [discriminate | reflexivity]|]).
  apply lookup_singleton_Some in Hsym as [_ <-].
  vm_compute; split; [discriminate | reflexivity].
Defined.

Lemma events_without_symbol_are_ignored_witness :
  let kb := keyboard_at 0 1 EEK_MODIFIER_BEHAVIOR_LOCK 1 in
  resolved blank_key kb = None
  ∧ run [KeyPressed blank_key; KeyReleased blank_key; KeyPressed blank_key] kb
    = (tt, kb, []).
Proof.
  cbv zeta. split; [reflexivity|].
  apply (events_without_symbol_are_ignored
           [KeyPressed blank_key; KeyReleased blank_key; KeyPressed blank_key]
           (keyboard_at 0 1 EEK_MODIFIER_BEHAVIOR_LOCK 1)).
  repeat (apply List.Forall_cons;
          [split; [reflexivity | intros Hb; discriminate Hb]|]).
  apply List.Forall_nil.
Defined.

Lemma ordinary_key_is_invisible_witness :
  let kb := keyboard_at 0 1 EEK_MODIFIER_BEHAVIOR_LOCK 1 in
  resolved a_key kb = Some letter_A
  ∧ eek_keyboard_real_key_released a_key kb = (tt, kb, [])
  ∧ eek_keyboard_real_key_pressed a_key kb = (tt, kb, []).
Proof.
  cbv zeta. split; [reflexivity|].
  destruct (ordinary_key_is_invisible a_key
              (keyboard_at 0 1 EEK_MODIFIER_BEHAVIOR_LOCK 1) letter_A)
    as [Hrelease Hpress]; [reflexivity | reflexivity | reflexivity |].
  split; [exact Hrelease | apply Hpress; discriminate].
Defined.

Lemma run_keeps_level_in_step_witness :
  let kb := demo_keyboard EEK_MODIFIER_BEHAVIOR_LOCK in
  let es := [KeyPressed shift_key; KeyReleased shift_key; KeyPressed mod5_key] in
  priv_level (priv kb) = level_of_mask (priv_modifiers (priv kb))
  ∧ priv_level (priv (after (run es kb)))
    = level_of_mask (priv_modifiers (priv (after (run es kb)))).
Proof.
  cbv zeta. split; [reflexivity|].
  apply (run_keeps_level_in_step _ (demo_keyboard EEK_MODIFIER_BEHAVIOR_LOCK));
    [discriminate | reflexivity].
Defined.

Lemma run_keeps_mask_in_range_witness :
  let kb := demo_keyboard EEK_MODIFIER_BEHAVIOR_NONE in
  let es := [KeyPressed shift_key; KeyReleased shift_key] in
  0 <= priv_modifiers (priv kb) < 2 ^ 32
  ∧ 0 <= priv_modifiers (priv (after (run es kb))) < 2 ^ 32.
Proof.
  cbv zeta.
  assert (Hm : 0 <= priv_modifiers
                      (priv (demo_keyboard EEK_MODIFIER_BEHAVIOR_NONE)) < 2 ^ 32)
    by (vm_compute; split; [discriminate | reflexivity]).
  split; [exact Hm|].
  apply (run_keeps_mask_in_range
           [KeyPressed shift_key; KeyReleased shift_key]
           (demo_keyboard EEK_MODIFIER_BEHAVIOR_NONE)); [|exact Hm].
  apply List.Forall_cons; [exact shift_key_masks_in_range|].
  apply List.Forall_cons; [exact shift_key_masks_in_range|].
  apply List.Forall_nil.
Defined.

Lemma none_press_release_round_trip_witness :
  let kb := demo_keyboard EEK_MODIFIER_BEHAVIOR_NONE in
  resolved shift_key kb = Some shift_symbol
  ∧ priv_modifiers (priv (after (eek_keyboard_real_key_pressed shift_key kb))) = 1
  ∧ after (run (press_release shift_key 1) kb) = kb.
Proof.
  cbv zeta. split; [reflexivity|].
  assert (Hmask : eek_symbol_get_modifier_mask shift_symbol ≠ 0) by discriminate.
  assert (Hm : 0 <= priv_modifiers
                      (priv (demo_keyboard EEK_MODIFIER_BEHAVIOR_NONE)) < 2 ^ 32)
    by (vm_compute; split; [discriminate | reflexivity]).
  destruct (none_press_release_round_trip shift_key
              (demo_keyboard EEK_MODIFIER_BEHAVIOR_NONE)
              shift_symbol shift_symbol)
    as (Hon & _ & _ & Hback);
    [reflexivity | reflexivity | exact Hm | reflexivity | exact Hmask
     | reflexivity | reflexivity | reflexivity |].
  split; [exact Hon | exact Hback].
Defined.

Lemma latch_is_one_shot_witness :
  let kb := demo_keyboard EEK_MODIFIER_BEHAVIOR_LATCH in
  resolved shift_key kb = Some shift_symbol
  ∧ resolved a_key (after (eek_keyboard_real_key_pressed shift_key kb))
    = Some letter_A
  ∧ priv_modifiers (priv (after (run [KeyPressed shift_key; KeyPressed a_key] kb)))
    = 0.
Proof.
  cbv zeta. split; [reflexivity|].
  assert (Hmask : eek_symbol_get_modifier_mask shift_symbol ≠ 0) by discriminate.
  destruct (latch_is_one_shot shift_key a_key
              (demo_keyboard EEK_MODIFIER_BEHAVIOR_LATCH)
              shift_symbol letter_A)
    as (_ & Hlookup & Hend);
    [reflexivity | reflexivity | exact Hmask | reflexivity | reflexivity |].
  split; [exact Hlookup | rewrite Hend; reflexivity].
Defined.

Lemma find_key_by_keycode_of_key_witness :
  NoDup (map key_keycode (all_keys plain_keyboard))
  ∧ In mod5_key (all_keys plain_keyboard)
  ∧ result (eek_keyboard_find_key_by_keycode 92 plain_keyboard) = Some mod5_key.
Proof.
  assert (Hnodup : NoDup (map key_keycode (all_keys plain_keyboard))).
  { apply (bool_decide_unpack _). vm_compute. exact I. }
  assert (Hin : In mod5_key (all_keys plain_keyboard))
    by (cbn; right; right; right; left; reflexivity).
  split; [exact Hnodup|]. split; [exact Hin|].
  apply (find_key_by_keycode_of_key plain_keyboard mod5_key Hnodup Hin).
Defined.

Lemma shift_press_selects_level_witness :
  on_key_pressed XK_Shift_L (0, 0) 4 =
    (5, [eek_keyboard_set_keysym_index 0 1])
  ∧ on_key_pressed XK_Shift_R (0, 1) 5 =
    (4, [eek_keyboard_set_keysym_index 0 0]).
Proof.
  split.
  - destruct (shift_press_selects_level XK_Shift_L (0, 0) 4 0) as [Hrun _];
      [left; reflexivity | lia | reflexivity | exact Hrun].
  - destruct (shift_press_selects_level XK_Shift_R (0, 1) 5 0) as [Hrun _];
      [right; reflexivity | lia | reflexivity | exact Hrun].
Defined.


End MoreExamples.

(** ** Properties of the release-message script *)

Section ScriptProperties.

Lemma dropwhile_suffix {A : Type} (f : A -> bool) (l : list A) :
  exists w, l = w ++ dropwhile f l.
Proof.
  induction l as [|x l [w IH]]; [exists []; reflexivity|].
  cbn [dropwhile]. destruct (f x).
  - exists (x :: w). cbn [app]. now rewrite <- IH.
  - exists []. reflexivity.
Qed.

Lemma dropwhile_cases {A : Type} (f : A -> bool) (l : list A) :
  dropwhile f l = []
  ∨ exists x l', dropwhile f l = x :: l' ∧ f x = false.
Proof.
  induction l as [|x l IH]; [left; reflexivity|].
  cbn [dropwhile]. destruct (f x) eqn:Hx; [exact IH|].
  right. exists x, l. split; [reflexivity | exact Hx].
Qed.

Lemma dropwhile_fixed {A : Type} (f : A -> bool) (x : A) (l : list A) :
  f x = false -> dropwhile f (x :: l) = x :: l.
Proof. intros Hx. cbn [dropwhile]. now rewrite Hx. Qed.

Lemma dropwhile_app_all {A : Type} (f : A -> bool) (l1 l2 : list A) :
  Forall (fun x => f x = true) l1 ->
  dropwhile f (l1 ++ l2) = dropwhile f l2.
Proof.
  induction 1 as [|x l1 Hx _ IH]; [reflexivity|].
  cbn [app dropwhile]. now rewrite Hx.
Qed.

Lemma strip_idempotent (s : list Z) : strip (strip s) = strip s.
Proof.
  unfold strip, rstrip, lstrip. set (t := dropwhile isspace s).
  destruct (dropwhile_cases isspace (rev t)) as [Hnil|(x & l' & Heq & Hx)].
  - rewrite Hnil. reflexivity.
  - rewrite Heq.
    destruct (dropwhile_suffix isspace (rev t)) as [w Hw].
    rewrite Heq in Hw. apply (f_equal (@rev Z)) in Hw.
    rewrite rev_involutive, rev_app_distr in Hw.
    assert (Hhead : dropwhile isspace (rev (x :: l')) = rev (x :: l')).
    { destruct (rev (x :: l')) as [|y u] eqn:Hu.
      - apply (f_equal (@length Z)) in Hu. rewrite length_rev in Hu.
        discriminate Hu.
      - apply dropwhile_fixed.
        destruct (dropwhile_cases isspace s) as [Hs|(y' & t' & Hs & Hy)];
          fold t in Hs; rewrite Hs in Hw; cbn [app] in Hw.
        + discriminate Hw.
        + injection Hw as -> _. exact Hy. }
    rewrite Hhead, rev_involutive. now rewrite dropwhile_fixed.
Qed.

Lemma print_section_stripped (pairs : list (list Z * list Z)) :
  Forall (fun l => strip l = l) (print_section pairs).1.
Proof.
  induction pairs as [|[line nextline] rest IH]; [constructor|].
  cbn [print_section].
  destruct (_ || _); [constructor|].
  destruct (_ || _); [constructor|].
  destruct (print_section rest) as [printed raised]. cbn [fst] in *.
  constructor; [apply strip_idempotent | exact IH].
Qed.

Lemma read_header_rest contents name rest :
  read_header contents = inr (name, rest) ->
  strip name = name ∧ exists k, rest = drop k contents.
Proof.
  unfold read_header.
  destruct (contents !! 0%nat) as [line0|]; [|discriminate].
  destruct (startswith line0 (codes "## ")).
  - intros [= <- <-]. split; [apply strip_idempotent | eauto].
  - destruct (contents !! 1%nat) as [line1|]; [|discriminate].
    destruct (startswith line1 (codes "---")); [|discriminate].
    intros [= <- <-]. split; [apply strip_idempotent | eauto].
Qed.

(** X19. What the script prints.  When the header cannot be read it
    prints nothing and raises.  Otherwise the first line is "Release"
    and the name, the second is empty, and the notes follow: the name
    and every line of the notes come without leading or trailing
    whitespace, and the notes do not begin with an empty line. *)
Theorem release_message_shape (contents : list (list Z)) :
  match read_header contents with
  | inl raised => release_message contents = ([], Some raised)
  | inr (name, _) =>
      exists body,
        (release_message contents).1 =
          (codes "Release" ++ codes " " ++ name) :: [] :: body
        ∧ strip name = name
        ∧ Forall (fun l => strip l = l) body
        ∧ head body ≠ Some []
  end.
Proof.
  unfold release_message.
  destruct (read_header contents) as [raised|[name rest]] eqn:Hheader;
    [reflexivity|].
  apply read_header_rest in Hheader as [Hname _].
  set (blank := fun x : list Z => bool_decide (strip x = [])).
  pose proof (print_section_stripped
                (combine (dropwhile blank rest)
                   (drop 1 (dropwhile blank rest) ++ [[]]))) as Hstripped.
  destruct (dropwhile_cases blank rest) as [Hnil|(x & l' & Heq & Hx)].
  - rewrite Hnil in *. cbn. exists [].
    split; [reflexivity|]. split; [exact Hname|].
    split; [constructor | discriminate].
  - rewrite Heq in *. change (drop 1 (x :: l')) with l' in *.
    destruct (l' ++ [[]]) as [|y tl] eqn:Hnext;
      [now destruct l'|].
    cbn [combine print_section] in *.
    destruct (_ || _).
    { exists []. split; [reflexivity|]. split; [exact Hname|].
      split; [constructor | discriminate]. }
    destruct (_ || _).
    { exists []. split; [reflexivity|]. split; [exact Hname|].
      split; [constructor | discriminate]. }
    destruct (print_section _) as [printed raised]. cbn [fst] in *.
    eexists. split; [reflexivity|]. split; [exact Hname|].
    split; [exact Hstripped|].
    cbn [head]. intros [= Hempty]. unfold blank in Hx.
    apply bool_decide_eq_false in Hx. contradiction.
Qed.

(** X20. A file with no line, or with one line that does not start
    with "## ", makes the script fail with [IndexError] before it
    prints anything; the [ValueError] for a missing release name needs
    at least two lines. *)
Theorem release_message_short_file (contents : list (list Z)) :
  (length contents <= 1)%nat ->
  (forall line, contents = [line] -> startswith line (codes "## ") = false) ->
  release_message contents = ([], Some IndexError).
Proof.
  intros Hlen Hline. unfold release_message, read_header.
  destruct contents as [|line [|line1 rest]].
  - reflexivity.
  - cbn [lookup list_lookup]. rewrite (Hline line eq_refl). reflexivity.
  - cbn [length] in Hlen. lia.
Qed.

(** X21. The two header styles are read alike: a first line "## name"
    gives the same output as the line "name" followed by a line that
    starts with "---". *)
Theorem release_message_header_styles
    (name underline : list Z) (rest : list (list Z)) :
  startswith name (codes "## ") = false ->
  startswith underline (codes "---") = true ->
  release_message ((codes "## " ++ name) :: rest) =
  release_message (name :: underline :: rest).
Proof.
  intros Hname Hunder. unfold release_message, read_header.
  cbn [lookup list_lookup].
  replace (startswith (codes "## " ++ name) (codes "## ")) with true
    by reflexivity.
  rewrite Hname, Hunder. reflexivity.
Qed.

(** X22. Blank lines right after a "## " header do not change the
    output. *)
Theorem release_message_skips_blank_lines
    (header : list Z) (blanks rest : list (list Z)) :
  startswith header (codes "## ") = true ->
  Forall (fun l => strip l = []) blanks ->
  release_message (header :: blanks ++ rest) = release_message (header :: rest).
Proof.
  intros Hheader Hblank. unfold release_message, read_header.
  cbn [lookup list_lookup]. rewrite Hheader.
  change (drop 1 (header :: blanks ++ rest)) with (blanks ++ rest).
  change (drop 1 (header :: rest)) with rest.
  rewrite dropwhile_app_all; [reflexivity|].
  eapply Forall_impl; [exact Hblank|].
  intros l Hl. cbn. now apply bool_decide_eq_true.
Qed.

Lemma print_section_no_title (pairs : list (list Z * list Z)) :
  Forall (fun p => startswith p.1 (codes "# ") = false
                   ∧ startswith p.2 (codes "===") = false) pairs ->
  (print_section pairs).2 = None.
Proof.
  induction 1 as [|[line nextline] rest [Hline Hnext] _ IH]; [reflexivity|].
  cbn [print_section fst snd] in *.
  destruct (_ || _); [reflexivity|].
  rewrite Hline, Hnext. cbn [orb].
  destruct (print_section rest) as [printed raised]. exact IH.
Qed.

Lemma Forall_combine {A B : Type} (P : A -> Prop) (Q : B -> Prop)
    (l1 : list A) (l2 : list B) :
  Forall P l1 -> Forall Q l2 ->
  Forall (fun p => P p.1 ∧ Q p.2) (combine l1 l2).
Proof.
  intros H1. revert l2. induction H1 as [|x l1 Hx _ IH]; intros l2 H2.
  - constructor.
  - destruct H2 as [|y l2 Hy H2]; [constructor|].
    cbn [combine]. constructor; [split; assumption | now apply IH].
Qed.

(** X23. Once the header is read, the script can only fail on a title:
    if no line of the file starts with "# " or with "===", it raises
    nothing. *)
Theorem release_message_fails_only_on_titles
    (contents : list (list Z)) (name : list Z) (rest : list (list Z)) :
  read_header contents = inr (name, rest) ->
  Forall (fun l => startswith l (codes "# ") = false
                   ∧ startswith l (codes "===") = false) contents ->
  (release_message contents).2 = None.
Proof.
  intros Hheader Hlines. unfold release_message. rewrite Hheader.
  apply read_header_rest in Hheader as [_ [k ->]].
  set (blank := fun x : list Z => bool_decide (strip x = [])).
  assert (Hkept : Forall (fun l => startswith l (codes "# ") = false
                                   ∧ startswith l (codes "===") = false)
                    (dropwhile blank (drop k contents))).
  { destruct (dropwhile_suffix blank (drop k contents)) as [w Hw].
    apply (Forall_drop _ k) in Hlines. rewrite Hw in Hlines.
    now apply Forall_app in Hlines as [_ Hlines]. }
  pose proof (print_section_no_title
                (combine (dropwhile blank (drop k contents))
                   (drop 1 (dropwhile blank (drop k contents)) ++ [[]])))
    as Hnone.
  destruct (print_section _) as [printed raised]. cbn [snd] in *.
  apply Hnone.
  apply (Forall_combine (fun l => startswith l (codes "# ") = false)
           (fun l => startswith l (codes "===") = false)).
  - eapply Forall_impl; [exact Hkept|]. now intros l [Hl _].
  - apply Forall_app. split.
    + apply Forall_drop. eapply Forall_impl; [exact Hkept|].
      now intros l [_ Hl].
    + constructor; [reflexivity | constructor].
Qed.

End ScriptProperties.

Section ScriptExamples.

Lemma release_message_short_file_witness :
  (length [codes "squeekboard news"] <= 1)%nat
  ∧ release_message [codes "squeekboard news"] = ([], Some IndexError).
Proof.
  split; [cbn; lia|].
  apply release_message_short_file; [cbn; lia|].
  intros line [= <-]. reflexivity.
Defined.

Lemma release_message_header_styles_witness :
  startswith (codes "1.2") (codes "## ") = false
  ∧ startswith (codes "-----") (codes "---") = true
  ∧ release_message [codes "## 1.2"; codes "Fixes"] =
    release_message [codes "1.2"; codes "-----"; codes "Fixes"].
Proof.
  split; [reflexivity|]. split; [reflexivity|].
  apply (release_message_header_styles (codes "1.2") (codes "-----"));
    reflexivity.
Defined.

Lemma release_message_skips_blank_lines_witness :
  startswith (codes "## 1.2") (codes "## ") = true
  ∧ release_message [codes "## 1.2"; codes " "; []; codes "Fixes"] =
    release_message [codes "## 1.2"; codes "Fixes"].
Proof.
  split; [reflexivity|].
  apply (release_message_skips_blank_lines (codes "## 1.2")
           [codes " "; []] [codes "Fixes"]); [reflexivity|].
  apply List.Forall_cons; [reflexivity|].
  apply List.Forall_cons; [reflexivity|]. apply List.Forall_nil.
Defined.

Lemma release_message_fails_only_on_titles_witness :
  read_header [codes "## 1.2"; codes "Fixes"; codes "## 1.1"] =
    inr (codes "1.2", [codes "Fixes"; codes "## 1.1"])
  ∧ release_message [codes "## 1.2"; codes "Fixes"; codes "## 1.1"] =
    ([codes "Release 1.2"; []; codes "Fixes"], None).
Proof.
  split; [reflexivity|].
  assert (Hnone :
    (release_message [codes "## 1.2"; codes "Fixes"; codes "## 1.1"]).2 = None).
  { apply (release_message_fails_only_on_titles _ (codes "1.2")
             [codes "Fixes"; codes "## 1.1"]); [reflexivity|].
    repeat (apply List.Forall_cons; [split; reflexivity|]).
    apply List.Forall_nil. }
  destruct (release_message _) as [printed raised] eqn:Hrun.
  cbn [snd] in Hnone. subst raised.
  vm_compute in Hrun. injection Hrun as <-. reflexivity.
Defined.

End ScriptExamples.
